(** * A shallow embedding of the Dask executor of ibis

    Source: [ibis/backends/dask/executor.py].

    The executor translates physical plan nodes into operations on
    partitioned (dask) dataframes.  The embedding below keeps the
    structure of the Python code: a pandas [DataFrame] is a list of column
    labels with a list of rows, a dask dataframe is a [_meta] frame with a
    list of pandas partitions, Python exceptions are the [Raise] branch of
    a result type, and every [visit] rule is one function.

    Row labels (the pandas index) are not represented: every operation
    modelled here addresses rows by position, and [reset_index(drop=True)]
    only renumbers the labels. *)

From stdpp Require Import base option list strings gmap sorting.
From Stdlib Require Import ZArith Lia.

Open Scope Z_scope.
Open Scope string_scope.
Open Scope list_scope.

(** ** Exceptions and fallible computations *)

Inductive exn : Type :=
| ValueError (msg : string)
| IndexError (msg : string)
| KeyError (key : string)
| TypeError (msg : string)
| AssertionError
| AttributeError (msg : string)
| UnboundExpressionError (msg : string)
| UnsupportedOperationError (msg : string).

Inductive result (A : Type) : Type :=
| Ok (a : A)
| Raise (e : exn).
Arguments Ok {A} a.
Arguments Raise {A} e.

#[global] Instance result_ret : MRet result := fun A a => Ok a.
#[global] Instance result_bind : MBind result := fun A B f m =>
  match m with
  | Ok a => f a
  | Raise e => Raise e
  end.
#[global] Instance result_fmap : FMap result := fun A B f m =>
  match m with
  | Ok a => Ok (f a)
  | Raise e => Raise e
  end.

(** [mapM] for [result]: the first exception wins, as in a Python loop. *)
Fixpoint traverse {A B : Type} (f : A -> result B) (l : list A) : result (list B) :=
  match l with
  | [] => Ok []
  | x :: xs => y ← f x; ys ← traverse f xs; Ok (y :: ys)
  end.

Definition is_ok {A : Type} (r : result A) : bool :=
  match r with Ok _ => true | Raise _ => false end.

(** The exceptions imported from [ibis.common.exceptions] (line 29), which
    report a wrong use of the backend; the others are Python's built-in
    exceptions, the ones pandas and dask raise on data. *)
Definition is_ibis_exception (e : exn) : bool :=
  match e with
  | UnboundExpressionError _ | UnsupportedOperationError _ => true
  | _ => false
  end.

(** ** Cells, series and pandas frames *)

(** A cell holds an integer or is missing (NaN / NA). *)
Inductive cell : Type :=
| CInt (z : Z)
| CNull.

#[global] Instance cell_eq_dec : EqDecision cell.
Proof. solve_decision. Defined.

(** A row is the list of its cells, one per column. *)
Abbreviation row := (list cell).

Record DataFrame : Type := mkDF {
  columns : list string;
  rows : list row
}.

Definition len (df : DataFrame) : nat := length (rows df).

(** [df.empty]: no rows or no columns. *)
Definition empty (df : DataFrame) : bool :=
  match rows df, columns df with
  | [], _ | _, [] => true
  | _, _ => false
  end.

(** Every row has one cell per column. *)
Definition wf_df (df : DataFrame) : Prop :=
  Forall (fun r : row => length r = length (columns df)) (rows df).

(** Position of a label among the columns. *)
Fixpoint col_index (c : string) (cols : list string) : option nat :=
  match cols with
  | [] => None
  | c' :: cs => if decide (c = c') then Some 0%nat else S <$> col_index c cs
  end.

(** [df[col]]: the values of one column; [KeyError] when the label is
    absent. *)
Definition getitem (df : DataFrame) (col : string) : result (list cell) :=
  match col_index col (columns df) with
  | None => Raise (KeyError col)
  | Some i => Ok (map (fun r : row => default CNull (r !! i)) (rows df))
  end.

(** [df[mask]] with a boolean mask: keeps the rows whose mask entry is
    true; pandas refuses a mask of the wrong length. *)
Fixpoint mask_rows {A : Type} (l : list A) (mask : list bool) : list A :=
  match l, mask with
  | x :: xs, b :: bs => if b then x :: mask_rows xs bs else mask_rows xs bs
  | _, _ => []
  end.

Definition getitem_mask (df : DataFrame) (mask : list bool) : result DataFrame :=
  if decide (length mask = len df)
  then Ok (mkDF (columns df) (mask_rows (rows df) mask))
  else Raise (ValueError "Item wrong length").

(** Removing the positions of a label from a row. *)
Fixpoint drop_label {A : Type} (name : string) (cols : list string) (l : list A) : list A :=
  match cols, l with
  | c :: cs, x :: xs =>
      if decide (c = name) then drop_label name cs xs else x :: drop_label name cs xs
  | _, _ => []
  end.

(** [df.drop(columns=names)] / [df.drop(names, axis=1)]: [KeyError] when a
    label is absent. *)
Definition drop1 (df : DataFrame) (name : string) : result DataFrame :=
  match col_index name (columns df) with
  | None => Raise (KeyError name)
  | Some _ =>
      Ok (mkDF (List.filter (fun c => bool_decide (c ≠ name)) (columns df))
               (map (drop_label name (columns df)) (rows df)))
  end.

Fixpoint drop_columns (df : DataFrame) (names : list string) : result DataFrame :=
  match names with
  | [] => Ok df
  | n :: ns => df' ← drop1 df n; drop_columns df' ns
  end.

(** [df.assign(name=values)]: replaces the column when the label exists,
    appends it otherwise. *)
Fixpoint set_at {A : Type} (i : nat) (x : A) (l : list A) : list A :=
  match i, l with
  | O, _ :: xs => x :: xs
  | S i', y :: xs => y :: set_at i' x xs
  | _, [] => []
  end.

Definition with_column (df : DataFrame) (name : string) (values : list cell) : DataFrame :=
  match col_index name (columns df) with
  | Some i => mkDF (columns df) (zip_with (fun (r : row) v => set_at i v r) (rows df) values)
  | None => mkDF (columns df ++ [name]) (zip_with (fun (r : row) v => r ++ [v]) (rows df) values)
  end.

Definition assign (df : DataFrame) (name : string) (values : list cell) : result DataFrame :=
  if decide (length values = len df)
  then Ok (with_column df name values)
  else Raise (ValueError "Length of values does not match length of index").

(** [df.iat[i, j]] and [df.iloc[i, j]]: the cell at a position. *)
Definition iat (df : DataFrame) (i j : nat) : result cell :=
  match rows df !! i with
  | None => Raise (IndexError "index out of bounds")
  | Some r =>
      match r !! j with
      | None => Raise (IndexError "index out of bounds")
      | Some c => Ok c
      end
  end.

(** [df.iloc[:, j]]: the column at a position. *)
Definition iloc_col (df : DataFrame) (j : nat) : result (list cell) :=
  if decide (j < length (columns df))%nat
  then Ok (map (fun r : row => default CNull (r !! j)) (rows df))
  else Raise (IndexError "single positional indexer is out-of-bounds").

(** ** Dask frames: a [_meta] frame and a list of pandas partitions *)

Record DaskDataFrame : Type := mkDDF {
  _meta : DataFrame;
  partitions : list DataFrame
}.

(** [ddf.compute()]: the partitions concatenated in order. *)
Definition compute (d : DaskDataFrame) : DataFrame :=
  mkDF (columns (_meta d)) (concat (map rows (partitions d))).

(** [len(ddf)]. *)
Definition dask_len (d : DaskDataFrame) : nat := len (compute d).

(** All partitions carry the columns of [_meta] and are rectangular. *)
Definition wf_ddf (d : DaskDataFrame) : Prop :=
  Forall (fun p => columns p = columns (_meta d) /\ wf_df p) (partitions d).

(** [ddf.map_partitions(f, meta=meta)]. *)
Definition map_partitions (f : DataFrame -> result DataFrame) (meta : DataFrame)
    (d : DaskDataFrame) : result DaskDataFrame :=
  ps ← traverse f (partitions d); Ok (mkDDF meta ps).

(** [ddf.drop(columns=[name])]: the pandas operation on every partition
    and on the meta frame. *)
Definition dask_drop (d : DaskDataFrame) (names : list string) : result DaskDataFrame :=
  m ← drop_columns (_meta d) names;
  ps ← traverse (fun p => drop_columns p names) (partitions d);
  Ok (mkDDF m ps).

(** [pd.concat(frames)] for frames sharing their columns: the labels of the
    first frame, the rows in order. *)
Definition pd_concat (dfs : list DataFrame) : DataFrame :=
  mkDF (match dfs with [] => [] | d :: _ => columns d end) (concat (map rows dfs)).

(** ** Limit *)

Module Limit.

(** What [n] and [offset] may be when [limit_df] runs: an integer literal,
    [None], or a materialized frame. *)
Inductive limit_arg : Type :=
| LInt (z : Z)
| LNone
| LFrame (df : DataFrame).

(** A Python scalar after the frame has been unwrapped. *)
Inductive scalar : Type :=
| SInt (z : Z)
| SNaN
| SNone.

Definition scalar_of_cell (c : cell) : scalar :=
  match c with
  | CInt z => SInt z
  | CNull => SNaN
  end.

(** [if isinstance(x, pd.DataFrame): x = x.iat[0, 0]] *)
Definition unwrap (a : limit_arg) : result scalar :=
  match a with
  | LFrame df => scalar_of_cell <$> iat df 0 0
  | LInt z => Ok (SInt z)
  | LNone => Ok SNone
  end.

(** [series >= x] and [series <= x]: a comparison with NaN is false
    everywhere, a comparison with [None] is a [TypeError]. *)
Definition cell_ge (lo : Z) (c : cell) : bool :=
  match c with
  | CInt z => bool_decide (lo <= z)
  | CNull => false
  end.

Definition cell_le (hi : Z) (c : cell) : bool :=
  match c with
  | CInt z => bool_decide (z <= hi)
  | CNull => false
  end.

Definition series_ge (s : list cell) (x : scalar) : result (list bool) :=
  match x with
  | SInt lo => Ok (map (cell_ge lo) s)
  | SNaN => Ok (map (fun _ => false) s)
  | SNone => Raise (TypeError "'>=' not supported with NoneType")
  end.

Definition series_le (s : list cell) (x : scalar) : result (list bool) :=
  match x with
  | SInt hi => Ok (map (cell_le hi) s)
  | SNaN => Ok (map (fun _ => false) s)
  | SNone => Raise (TypeError "'<=' not supported with NoneType")
  end.

(** [series.between(lo, hi)] is [(series >= lo) & (series <= hi)]. *)
Definition between (s : list cell) (lo hi : scalar) : result (list bool) :=
  l ← series_ge s lo; r ← series_le s hi; Ok (zip_with andb l r).

(** [offset + n - 1] on Python scalars. *)
Definition upper_bound (offset n : scalar) : result scalar :=
  match offset, n with
  | SNone, _ | _, SNone => Raise (TypeError "unsupported operand type(s) for +")
  | SInt o, SInt k => Ok (SInt (o + k - 1))
  | _, _ => Ok SNaN
  end.

(** [limit_df], lines 36-50. *)
Definition limit_df (df : DataFrame) (col : string) (n offset : limit_arg)
    : result DataFrame :=
  offset ← unwrap offset;
  n ← unwrap n;
  match n with
  | SNone =>
      ids ← getitem df col;
      mask ← series_ge ids offset;
      getitem_mask df mask
  | _ =>
      ids ← getitem df col;
      hi ← upper_bound offset n;
      mask ← between ids offset hi;
      getitem_mask df mask
  end.

Section Identifiers.

(** [add_globally_consecutive_column] belongs to
    [ibis.backends.dask.helpers], which lies outside the module embedded
    here: the rule is modelled for any assignment [identifiers] of row
    identifiers, one list per partition. *)
Variable identifiers : list DataFrame -> list (list Z).

(** [add_globally_consecutive_column(parent, name, set_as_index=False)]:
    the identifiers become the column [name]. *)
Definition add_globally_consecutive_column (d : DaskDataFrame) (name : string)
    : DaskDataFrame :=
  mkDDF (with_column (_meta d) name [])
        (zip_with (fun p ids => with_column p name (CInt <$> ids))
                  (partitions d) (identifiers (partitions d))).

(** [visit(op: PandasLimit, parent, n, offset)], lines 306-318.  [name] is
    the label returned by [gen_name("limit")]. *)
Definition visit_PandasLimit (name : string) (parent : DaskDataFrame)
    (n offset : limit_arg) : result DaskDataFrame :=
  let df := add_globally_consecutive_column parent name in
  limited ← map_partitions (fun p => limit_df p name n offset) (_meta df) df;
  dask_drop limited [name].

End Identifiers.

(** Modelled from the spec: section 4.3 asks for identifiers that are
    unique and strictly increasing when the partitions are read in order,
    obtained from the prefix row counts of the partitions; numbering the
    rows consecutively from 0 in that order is such an assignment. *)
Fixpoint row_ids (start : Z) (ps : list DataFrame) : list (list Z) :=
  match ps with
  | [] => []
  | p :: ps' =>
      seqZ start (Z.of_nat (len p)) :: row_ids (start + Z.of_nat (len p)) ps'
  end.

Definition consecutive (ps : list DataFrame) : list (list Z) := row_ids 0 ps.

(** One identifier per row. *)
Definition covers (identifiers : list DataFrame -> list (list Z)) (d : DaskDataFrame)
    : Prop :=
  Forall2 (fun p ids => length ids = len p) (partitions d) (identifiers (partitions d)).

(** The rows whose identifier satisfies [keep]. *)
Definition select_rows (keep : Z -> bool) (rs : list row) (ids : list Z) : list row :=
  fst <$> List.filter (fun p : row * Z => keep (snd p)) (zip rs ids).

(** An argument that stands for the integer [z]: the literal, or a frame
    whose cell (0, 0) holds it. *)
Inductive denotes_int : limit_arg -> Z -> Prop :=
| denotes_literal z : denotes_int (LInt z) z
| denotes_frame df z : iat df 0 0 = Ok (CInt z) -> denotes_int (LFrame df) z.

(** [n] stands for the count [k], or is [None] (no bound). *)
Definition stands_for (n : limit_arg) (bound : option Z) : Prop :=
  match bound with
  | Some k => denotes_int n k
  | None => n = LNone
  end.

(** The identifiers of [[offset, offset + n - 1]], or those from [offset]
    on when there is no bound. *)
Definition in_range (off : Z) (bound : option Z) (id : Z) : bool :=
  match bound with
  | Some k => bool_decide (off <= id) && bool_decide (id <= off + k - 1)
  | None => bool_decide (off <= id)
  end.

End Limit.

(** ** ArgMin / ArgMax and the reduction protocol *)

Module Reduction.

Inductive method : Type := argmin | argmax.

(** Is [z] strictly better than the best value seen so far? *)
Definition better (m : method) (z best : Z) : bool :=
  match m with
  | argmin => bool_decide (z < best)
  | argmax => bool_decide (best < z)
  end.

(** One left-to-right pass over cells paired with a payload, keeping the
    first extremal non-null cell: a later cell replaces the best one only
    when it is strictly better. *)
Fixpoint scan {P : Type} (m : method) (l : list (cell * P)) (best : option (Z * P))
    : option (Z * P) :=
  match l with
  | [] => best
  | (CNull, _) :: l' => scan m l' best
  | (CInt z, p) :: l' =>
      match best with
      | None => scan m l' (Some (z, p))
      | Some (bz, _) =>
          if better m z bz then scan m l' (Some (z, p)) else scan m l' best
      end
  end.

Definition method_name (m : method) : string :=
  match m with argmin => "argmin" | argmax => "argmax" end.

(** The cells of a series with their positions. *)
Definition positioned (s : list cell) : list (cell * Z) :=
  zip s (seqZ 0 (Z.of_nat (length s))).

(** [Series.argmin()] / [Series.argmax()]: the position of the first
    extremal value, nulls skipped; an empty series raises [ValueError], a
    series of nulls only yields -1. *)
Definition series_arg (m : method) (s : list cell) : result Z :=
  match s with
  | [] => Raise (ValueError ("attempt to get " ++ method_name m ++ " of an empty sequence"))
  | _ =>
      match scan m (positioned s) None with
      | Some (_, i) => Ok i
      | None => Ok (-1)
      end
  end.

(** Python's [l[start:stop]] with negative positions counted from the
    end. *)
Definition clamp (n : nat) (i : Z) : nat :=
  if bool_decide (i < 0) then Z.to_nat (Z.max 0 (Z.of_nat n + i))
  else Nat.min (Z.to_nat i) n.

Definition py_slice {A : Type} (l : list A) (start stop : Z) : list A :=
  let a := clamp (length l) start in
  let b := clamp (length l) stop in
  take (b - a) (drop a l).

(** [series.iloc[i]] with a scalar position. *)
Definition iloc_scalar (s : list cell) (i : Z) : result cell :=
  let n := Z.of_nat (length s) in
  if bool_decide (- n <= i < n) then
    Ok (default CNull (s !! Z.to_nat (if bool_decide (i < 0) then n + i else i)))
  else Raise (IndexError "single positional indexer is out-of-bounds").

(** [df[[a, b]]]: a frame of the two columns (the labels of [df] are
    taken to be distinct). *)
Definition getitem2 (df : DataFrame) (a b : string) : result DataFrame :=
  match col_index a (columns df), col_index b (columns df) with
  | None, _ => Raise (KeyError a)
  | _, None => Raise (KeyError b)
  | Some i, Some j =>
      Ok (mkDF [a; b]
            (map (fun r : row => [default CNull (r !! i); default CNull (r !! j)])
                 (rows df)))
  end.

(** [getattr(df[col], method)()]: when the label occurs more than once,
    [df[col]] is a frame, and frames have neither [argmin] nor [argmax]. *)
Definition occurrences (c : string) (cols : list string) : nat :=
  length (List.filter (fun x => bool_decide (x = c)) cols).

Definition column_arg (m : method) (df : DataFrame) (col : string) : result Z :=
  keys ← getitem df col;
  if bool_decide (1 < occurrences col (columns df))%nat
  then Raise (AttributeError
                ("'DataFrame' object has no attribute '" ++ method_name m ++ "'"))
  else series_arg m keys.

(** [argminmax_chunk], lines 53-55. *)
Definition argminmax_chunk (keycol valcol : string) (m : method) (df : DataFrame)
    : result DataFrame :=
  idx ← column_arg m df keycol;
  sub ← getitem2 df keycol valcol;
  Ok (mkDF (columns sub) (py_slice (rows sub) idx (idx + 1))).

(** [argminmax_aggregate], lines 58-59.  Python evaluates [df[valcol]]
    before the position. *)
Definition argminmax_aggregate (keycol valcol : string) (m : method) (df : DataFrame)
    : result cell :=
  vals ← getitem df valcol;
  idx ← column_arg m df keycol;
  iloc_scalar vals idx.

(** dask's [_concat]: empty partial results are left out; when all are
    empty the first one is returned. *)
Definition _concat (parts : list DataFrame) : DataFrame :=
  match List.filter (fun p => negb (Nat.eqb (len p) 0)) parts with
  | [] => match parts with p :: _ => p | [] => mkDF [] [] end
  | nonempty => pd_concat nonempty
  end.

(** [partition_all(n, l)]: consecutive groups of [n] elements. *)
Fixpoint partition_all_aux {A : Type} (fuel n : nat) (l : list A) : list (list A) :=
  match fuel with
  | O => []
  | S fuel' =>
      match l with
      | [] => []
      | _ => take n l :: partition_all_aux fuel' n (drop n l)
      end
  end.

Definition partition_all {A : Type} (n : nat) (l : list A) : list (list A) :=
  partition_all_aux (length l) n l.

(** The combine rounds of dask's tree reduction:
    [while k > split_every: combine every group of split_every partials]. *)
Fixpoint combine_rounds (fuel split_every : nat)
    (combine : DataFrame -> result DataFrame) (partials : list DataFrame)
    : result (list DataFrame) :=
  match fuel with
  | O => Ok partials
  | S fuel' =>
      if bool_decide (split_every < length partials)%nat then
        next ← traverse (fun g => combine (_concat g)) (partition_all split_every partials);
        combine_rounds fuel' split_every combine next
      else Ok partials
  end.

(** [ddf.reduction(chunk, combine, aggregate, split_every)]: chunk on
    every partition, tree-combine, aggregate once. *)
Definition reduction {R : Type} (chunk combine : DataFrame -> result DataFrame)
    (aggregate : DataFrame -> result R) (split_every : nat) (d : DaskDataFrame)
    : result R :=
  if bool_decide (split_every < 2)%nat
  then Raise (ValueError "split_every must be an integer >= 2")
  else
    partials ← traverse chunk (partitions d);
    combined ← combine_rounds (length partials) split_every combine partials;
    aggregate (_concat combined).

(** [df.where(df[name])]: rows whose mask cell is not true become null in
    every column. *)
Definition truthy (c : cell) : bool :=
  match c with
  | CInt z => negb (Z.eqb z 0)
  | CNull => false
  end.

Definition where_ (df : DataFrame) (name : string) : result DataFrame :=
  mask ← getitem df name;
  Ok (mkDF (columns df)
        (zip_with (fun (r : row) c => if truthy c then r else map (fun _ => CNull) r)
                  (rows df) mask)).

Definition dask_where (d : DaskDataFrame) (name : string) : result DaskDataFrame :=
  m ← where_ (_meta d) name;
  map_partitions (fun p => where_ p name) m d.

(** The table handed to the aggregation closure. *)
Inductive table : Type :=
| Pandas (df : DataFrame)
| Dask (d : DaskDataFrame).

(** dask's default [split_every]. *)
Definition default_split_every : nat := 8.

(** [visit(op: ops.ArgMin | ops.ArgMax, arg, key, where)], lines 182-204:
    the closure [agg] applied to a table. *)
Definition visit_ArgMinMax (m : method) (arg key : string) (where_col : option string)
    (split_every : nat) (t : table) : result cell :=
  match t with
  | Dask d =>
      d ← match where_col with Some w => dask_where d w | None => Ok d end;
      reduction (argminmax_chunk key arg m) (argminmax_chunk key arg m)
                (argminmax_aggregate key arg m) split_every d
  | Pandas df =>
      df ← match where_col with Some w => where_ df w | None => Ok df end;
      argminmax_aggregate key arg m df
  end.

(** The first row with the extremal key among two-cell rows
    [[key; value]], if any key is not null. *)
Definition keyed (rs : list row) : list (cell * row) :=
  map (fun r : row => (default CNull (r !! 0%nat), r)) rs.

Definition winner (m : method) (rs : list row) : option row :=
  snd <$> scan m (keyed rs) None.

(** The partition has a row whose key is not null. *)
Definition has_key (key : string) (p : DataFrame) : Prop :=
  exists keys z, getitem p key = Ok keys /\ CInt z ∈ keys.

(** The entry a scan result stands for, and the better of a candidate
    and a scan result. *)
Definition entries {P : Type} (o : option (Z * P)) : list (cell * P) :=
  match o with
  | Some (z, p) => [(CInt z, p)]
  | None => []
  end.

Definition merge {P : Type} (m : method) (x : Z * P) (o : option (Z * P)) : option (Z * P) :=
  match o with
  | None => Some x
  | Some y => if better m (fst y) (fst x) then Some y else Some x
  end.

Definition option_rows (o : option row) : list row :=
  match o with Some r => [r] | None => [] end.

Definition key0 (r : row) : cell := default CNull (r !! 0%nat).

(** Two-cell rows with their key and position. *)
Definition indexed (rs : list row) : list (cell * (Z * row)) :=
  zip_with (fun r i => (key0 r, (i, r))) rs (seqZ 0 (Z.of_nat (length rs))).

(** The two cells [argminmax_chunk] keeps of a row. *)
Definition proj (ik iv : nat) (r : row) : row :=
  [default CNull (r !! ik); default CNull (r !! iv)].

(** A partial result: one row [[key; value]] with a key that is not null. *)
Definition is_partial (key arg : string) (f : DataFrame) : Prop :=
  columns f = [key; arg] /\ exists z v, rows f = [[CInt z; v]].

Definition rows_of (fs : list DataFrame) : list row := concat (map rows fs).

(** The rows of the example of section 8 of the spec, with columns k
    and v, held as one partition and as three. *)
Definition example_rows : list row :=
  [[CInt 1; CInt 10]; [CInt 5; CInt 2]; [CInt 3; CInt 9]].

Definition example_meta : DataFrame := mkDF ["k"; "v"] [].

Definition example_one : DaskDataFrame :=
  mkDDF example_meta [mkDF ["k"; "v"] example_rows].

Definition example_three : DaskDataFrame :=
  mkDDF example_meta (map (fun r => mkDF ["k"; "v"] [r]) example_rows).

(** The table held as one partition. *)
Definition as_one_partition (d : DaskDataFrame) : DaskDataFrame :=
  mkDDF (_meta d) [compute d].

End Reduction.

(** ** Correlation and covariance *)

Module Stats.

(** The closures [agg] returned by the two rules, as data: applying them
    computes a floating-point statistic, which lies outside this model. *)
Inductive agg : Type :=
| CorrAgg (left right : string) (where_col : option string)
| CovAgg (left right : string) (where_col : option string).

(** [visit(op: ops.Correlation, left, right, where, how)], lines 206-219. *)
Definition visit_Correlation (left right : string) (where_col : option string)
    (how : string) : result agg :=
  if decide (how = "pop") then
    Raise (UnsupportedOperationError "Dask doesn't support `corr` with `how='pop'`")
  else Ok (CorrAgg left right where_col).

(** [visit(op: ops.Covariance, left, right, where, how)], lines 221-234. *)
Definition visit_Covariance (left right : string) (where_col : option string)
    (how : string) : result agg :=
  if decide (how = "pop") then
    Raise (UnsupportedOperationError "Dask doesn't support `cov` with `how='pop'`")
  else Ok (CovAgg left right where_col).

End Stats.

(** ** Relational rules *)

Module Relational.

(** The backend a table scan refers to: [source.name] and
    [source.dictionary]. *)
Record Backend : Type := mkBackend {
  backend_name : string;
  dictionary : gmap string DaskDataFrame
}.

(** [visit(op: ops.DatabaseTable, name, schema, source, namespace)],
    lines 286-294: the [KeyError] of the dictionary is turned into an
    [UnboundExpressionError]. *)
Definition visit_DatabaseTable (name : string) (source : Backend)
    : result DaskDataFrame :=
  match dictionary source !! name with
  | Some t => Ok t
  | None =>
      Raise (UnboundExpressionError
               (name ++ " is not a table in the '" ++ backend_name source
                     ++ "' backend, you probably tried to execute an expression without a data source"))
  end.

(** [dd.concat(dfs)] along the rows: refuses an empty list, returns a
    single frame as it is. *)
Definition dd_concat (dfs : list DaskDataFrame) : result DaskDataFrame :=
  match dfs with
  | [] => Raise (ValueError "No objects to concatenate")
  | [d] => Ok d
  | d :: _ => Ok (mkDDF (_meta d) (concat (map partitions dfs)))
  end.

(** [visit(op: ops.Project, parent, values)], lines 329-334.  The pair
    [(df, all_scalars)] is what [cls.asframe(values)] returned ([asframe]
    belongs to [ibis.backends.dask.helpers]). *)
Definition visit_Project (parent : DaskDataFrame) (asframe_values : DaskDataFrame * bool)
    : result DaskDataFrame :=
  let '(df, all_scalars) := asframe_values in
  if all_scalars && negb (Nat.eqb (dask_len parent) (dask_len df))
  then dd_concat (replicate (dask_len parent) df)
  else Ok df.

(** A dask series of booleans: one list per partition. *)
Abbreviation BoolSeries := (list (list bool)).

(** [zip_with] that refuses operands of different lengths (dask and pandas
    would try to align them by label, which the positional model does not
    follow). *)
Definition zip_exact {A B C : Type} (f : A -> B -> C) (l : list A) (k : list B)
    : result (list C) :=
  if decide (length l = length k) then Ok (zip_with f l k)
  else Raise (ValueError "operands could not be aligned").

(** [operator.and_] on two boolean series. *)
Definition and_ (a b : BoolSeries) : result BoolSeries :=
  ps ← zip_exact (fun x y => (x, y)) a b;
  traverse (fun p : list bool * list bool => zip_exact andb (fst p) (snd p)) ps.

(** [functools.reduce(f, seq)] on a non-empty sequence. *)
Fixpoint reduce_from {A : Type} (f : A -> A -> result A) (acc : A) (l : list A) : result A :=
  match l with
  | [] => Ok acc
  | x :: xs => acc' ← f acc x; reduce_from f acc' xs
  end.

(** [ddf.loc[pred]] with a boolean series: the mask of every partition. *)
Definition loc (d : DaskDataFrame) (pred : BoolSeries) : result DaskDataFrame :=
  ps ← zip_exact (fun p m => (p, m)) (partitions d) pred;
  ps' ← traverse (fun pm : DataFrame * list bool => getitem_mask (fst pm) (snd pm)) ps;
  Ok (mkDDF (_meta d) ps').

(** [reset_index(drop=True)] replaces the row labels by 0, 1, ...; rows
    and columns are untouched. *)
Definition reset_index_drop (d : DaskDataFrame) : DaskDataFrame := d.

(** [visit(op: ops.Filter, parent, predicates)], lines 336-341. *)
Definition visit_Filter (parent : DaskDataFrame) (predicates : list BoolSeries)
    : result DaskDataFrame :=
  match predicates with
  | [] => Ok parent
  | p :: ps =>
      pred ← reduce_from and_ p ps;
      masked ← loc parent pred;
      Ok (reset_index_drop masked)
  end.

(** The entry of a boolean series at partition [j], row [i], and the
    conjunction of all predicates there. *)
Definition cell_at (pred : BoolSeries) (j i : nat) : bool :=
  default false (pred !! j ≫= fun m => m !! i).

Definition mask_at (preds : list BoolSeries) (j i : nat) : bool :=
  forallb (fun pred => cell_at pred j i) preds.

(** The rows at the positions where [f] holds, counted from [i]. *)
Fixpoint keep_from (f : nat -> bool) (i : nat) (rs : list row) : list row :=
  match rs with
  | [] => []
  | r :: rs' => if f i then r :: keep_from f (S i) rs' else keep_from f (S i) rs'
  end.

Fixpoint filter_partitions (f : nat -> nat -> bool) (j : nat) (ps : list DataFrame)
    : list DataFrame :=
  match ps with
  | [] => []
  | p :: ps' => mkDF (columns p) (keep_from (f j) 0 (rows p)) :: filter_partitions f (S j) ps'
  end.

(** The boolean series whose entries are given by [f]. *)
Fixpoint tabulate (f : nat -> bool) (i n : nat) : list bool :=
  match n with
  | O => []
  | S n' => f i :: tabulate f (S i) n'
  end.

Fixpoint tabulate_partitions (f : nat -> nat -> bool) (j : nat) (ps : list DataFrame)
    : BoolSeries :=
  match ps with
  | [] => []
  | p :: ps' => tabulate (f j) 0 (len p) :: tabulate_partitions f (S j) ps'
  end.

(** A predicate lies along the partitions of the parent. *)
Definition along (parent : DaskDataFrame) (pred : BoolSeries) : Prop :=
  Forall2 (fun p m => length m = len p) (partitions parent) pred.

(** A frame of one row, as [asframe] builds it from scalars. *)
Definition scalar_frame (cols : list string) (r : row) : DaskDataFrame :=
  mkDDF (mkDF cols []) [mkDF cols [r]].

End Relational.

(** ** Sort *)

Module Sort.

(** A dask series of cells: one list per partition. *)
Abbreviation CellSeries := (list (list cell)).

(** A sort key: the flags of [op.keys[i]] and the compiled column
    [keys[i]]. *)
Record SortKey : Type := mkSortKey {
  ascending : bool;
  nulls_first : bool;
  key_column : CellSeries
}.

Inductive na_position : Type := NaFirst | NaLast.

(** Order of two cells under one key: nulls go where [na_position] says,
    whatever the direction. *)
Definition cell_cmp (asc : bool) (na : na_position) (a b : cell) : comparison :=
  match a, b with
  | CNull, CNull => Eq
  | CNull, CInt _ => match na with NaFirst => Lt | NaLast => Gt end
  | CInt _, CNull => match na with NaFirst => Gt | NaLast => Lt end
  | CInt x, CInt y => if asc then Z.compare x y else Z.compare y x
  end.

(** Lexicographic order on rows, by the positions of the [by] columns. *)
Fixpoint rows_cmp (by_ : list (nat * bool)) (na : na_position) (r1 r2 : row)
    : comparison :=
  match by_ with
  | [] => Eq
  | (i, asc) :: rest =>
      match cell_cmp asc na (default CNull (r1 !! i)) (default CNull (r2 !! i)) with
      | Eq => rows_cmp rest na r1 r2
      | c => c
      end
  end.

Definition row_le (by_ : list (nat * bool)) (na : na_position) : relation row :=
  fun r1 r2 => rows_cmp by_ na r1 r2 ≠ Gt.

#[global] Instance comparison_eq_dec : EqDecision comparison.
Proof. solve_decision. Defined.

#[global] Instance row_le_dec by_ na : RelDecision (row_le by_ na).
Proof. intros r1 r2. unfold row_le. apply _. Defined.

(** [ddf.assign(name=series)]: the series is attached partition by
    partition. *)
Definition dask_assign (d : DaskDataFrame) (name : string) (s : CellSeries)
    : result DaskDataFrame :=
  ps ← Relational.zip_exact (fun p v => (p, v)) (partitions d) s;
  ps' ← traverse (fun pv : DataFrame * list cell => assign (fst pv) name (snd pv)) ps;
  Ok (mkDDF (with_column (_meta d) name []) ps').

Fixpoint dask_assign_all (d : DaskDataFrame) (newcols : list (string * CellSeries))
    : result DaskDataFrame :=
  match newcols with
  | [] => Ok d
  | (name, s) :: rest => d' ← dask_assign d name s; dask_assign_all d' rest
  end.

(** [ddf.sort_values(by, ascending, na_position)]: every [by] label must
    be a column and have its direction; the rows come back globally
    sorted.  How dask cuts the sorted rows into partitions is not
    modelled: they are returned as one partition.  [by] is taken to hold
    a label at least. *)
Definition sort_values (d : DaskDataFrame) (by_ : list string) (asc : list bool)
    (na : na_position) : result DaskDataFrame :=
  positions ← traverse (fun name =>
                 match col_index name (columns (_meta d)) with
                 | Some i => Ok i
                 | None => Raise (KeyError name)
                 end) by_;
  spec ← Relational.zip_exact (fun i a => (i, a)) positions asc;
  Ok (mkDDF (_meta d)
        [mkDF (columns (_meta d)) (merge_sort (row_le spec na) (rows (compute d)))]).

(** [visit(op: ops.Sort, parent, keys)], lines 343-368.  [names] are the
    labels returned by the calls of [gen_name("sort_key")], one per key;
    [gen_name] never returns a label twice, so the dictionary [newcols]
    is the list of pairs. *)
Definition visit_Sort (names : list string) (parent : DaskDataFrame)
    (keys : list SortKey) : result DaskDataFrame :=
  let asc := map ascending keys in
  let nf := map nulls_first keys in
  na ← (if forallb id nf then Ok NaFirst
        else if negb (existsb id nf) then Ok NaLast
        else Raise (ValueError
               "dask does not support specifying null ordering for individual columns"));
  let newcols := zip names (map key_column keys) in
  let names := map fst newcols in
  df ← dask_assign_all parent newcols;
  df ← sort_values df names asc na;
  dask_drop df names.








End Sort.

(** ** Grouped aggregation *)

Module Aggregate.

(** The declared (ibis) types of metrics and the native (pandas) ones. *)
Inductive ibis_dtype : Type := Int64 | Float64 | Boolean | String_.
Inductive pandas_dtype : Type := np_int64 | np_float64 | np_bool | np_object.

(** A group key [k: v] of [groups] / [op.groups]: the output label [k]
    and the name [v.name] of the column it is computed from. *)
Record Group : Type := mkGroup {
  g_out : string;
  g_name : string
}.

(** A metric [name: metric] of [metrics] with the declared type
    [op.metrics[name].dtype]. *)
Record Metric : Type := mkMetric {
  m_name : string;
  m_dtype : ibis_dtype;
  m_fn : Reduction.table -> result cell
}.

(** The template [pd.Series(name=..., dtype=..., index=pd.MultiIndex(...))]:
    no data, a name, a type and the names of the index levels. *)
Record SeriesMeta : Type := mkSeriesMeta {
  s_name : string;
  s_dtype : pandas_dtype;
  s_index_names : list string
}.

(** A lazy series indexed by group key: its template and, once computed,
    one value per group. *)
Record Measure : Type := mkMeasure {
  measure_meta : SeriesMeta;
  measure_values : list (row * cell)
}.

(** A frame with a typed schema. *)
Record TypedFrame : Type := mkTypedFrame {
  schema : list (string * pandas_dtype);
  data : list row
}.

(** A frame indexed by group key, before [reset_index]. *)
Record IndexedFrame : Type := mkIndexedFrame {
  index_names : list string;
  value_schema : list (string * pandas_dtype);
  entries : list (row * row)
}.

(** [parent.groupby(names)]: the positions of the grouping columns and the
    distinct key combinations (rows with a null key belong to no group). *)
Record GroupBy : Type := mkGroupBy {
  gb_frame : DataFrame;
  gb_positions : list nat
}.

Definition key_of (positions : list nat) (r : row) : row :=
  map (fun i => default CNull (r !! i)) positions.

Definition has_null (k : row) : bool :=
  existsb (fun c => bool_decide (c = CNull)) k.

Definition group_keys (g : GroupBy) : list row :=
  remove_dups
    (List.filter (fun k => negb (has_null k))
                 (map (key_of (gb_positions g)) (rows (gb_frame g)))).

Definition group_frame (g : GroupBy) (k : row) : DataFrame :=
  mkDF (columns (gb_frame g))
       (List.filter (fun r => bool_decide (key_of (gb_positions g) r = k))
                    (rows (gb_frame g))).

Definition groupby (parent : DaskDataFrame) (names : list string) : result GroupBy :=
  positions ← traverse (fun name =>
                 match col_index name (columns (_meta parent)) with
                 | Some i => Ok i
                 | None => Raise (KeyError name)
                 end) names;
  Ok (mkGroupBy (compute parent) positions).

(** [grouped.apply(metric, meta=meta)]: the template fixes name and type;
    the metric runs once per group. *)
Definition apply (g : GroupBy) (metric : Reduction.table -> result cell)
    (meta : SeriesMeta) : result Measure :=
  vs ← traverse (fun k => v ← metric (Reduction.Pandas (group_frame g k)); Ok (k, v))
                (group_keys g);
  Ok (mkMeasure meta vs).

(** Modelled from the spec: [DaskUtils.concat] of
    [ibis.backends.dask.helpers] lies outside the module embedded here.
    Section 4.4 asks for one column per metric and one row per group-key
    combination; the measures, renamed to their dictionary keys, are put
    side by side ([dd.concat(..., axis=1)], which refuses an empty list). *)
Fixpoint side_by_side (ms : list Measure) : list (row * row) :=
  match ms with
  | [] => []
  | [m] => map (fun kv : row * cell => (fst kv, [snd kv])) (measure_values m)
  | m :: rest =>
      zip_with (fun (kv : row * cell) (e : row * row) => (fst kv, snd kv :: snd e))
               (measure_values m) (side_by_side rest)
  end.

Definition concat_axis1 (measures : list (string * Measure)) : result IndexedFrame :=
  match measures with
  | [] => Raise (ValueError "No objects to concatenate")
  | (_, m) :: _ =>
      Ok (mkIndexedFrame
            (s_index_names (measure_meta m))
            (map (fun nm : string * Measure => (fst nm, s_dtype (measure_meta (snd nm))))
                 measures)
            (side_by_side (map snd measures)))
  end.

(** [frame.reset_index()]: the index levels become the leading columns;
    the levels of the template are empty lists, of type object. *)
Definition reset_index (f : IndexedFrame) : TypedFrame :=
  mkTypedFrame
    (map (fun n => (n, np_object)) (index_names f) ++ value_schema f)
    (map (fun e : row * row => fst e ++ snd e) (entries f)).

(** [frame.rename(columns=renames)] with the dictionary as an association
    list whose later entries win. *)
Fixpoint rename_label (renames : list (string * string)) (l : string) : string :=
  match renames with
  | [] => l
  | (old, new) :: rest =>
      match List.find (fun on : string * string => bool_decide (fst on = l)) rest with
      | Some _ => rename_label rest l
      | None => if decide (old = l) then new else l
      end
  end.

Definition rename (f : TypedFrame) (renames : list (string * string)) : TypedFrame :=
  mkTypedFrame
    (map (fun c : string * pandas_dtype => (rename_label renames (fst c), snd c)) (schema f))
    (data f).

Section Visit.

(** [PandasType.from_ibis] and [DaskUtils.asframe] live in other modules
    of the repository; the rule is modelled for any such functions. *)
Variable from_ibis : ibis_dtype -> pandas_dtype.
Variable asframe : list (string * cell) -> TypedFrame.

(** The template built for one metric, lines 381-389. *)
Definition template (groups : list Group) (m : Metric) : SeriesMeta :=
  mkSeriesMeta (m_name m) (from_ibis (m_dtype m)) (map g_out groups).

(** [visit(op: PandasAggregate, parent, groups, metrics)], lines 370-394. *)
Definition visit_PandasAggregate (parent : DaskDataFrame) (groups : list Group)
    (metrics : list Metric) : result TypedFrame :=
  match groups with
  | [] =>
      results ← traverse (fun m => v ← m_fn m (Reduction.Dask parent); Ok (m_name m, v))
                         metrics;
      Ok (asframe results)
  | _ =>
      grouped ← groupby parent (map g_name groups);
      measures ← traverse (fun m =>
                    s ← apply grouped (m_fn m) (template groups m); Ok (m_name m, s))
                  metrics;
      combined ← concat_axis1 measures;
      let result := reset_index combined in
      let renames := map (fun g => (g_name g, g_out g)) groups in
      Ok (rename result renames)
  end.

End Visit.

(** Modelled from the spec: [PandasType.from_ibis] lies outside the module
    embedded here.  Section 6 has a conversion from the engine's types to
    the native ones; each declared type goes to its numpy counterpart. *)
Definition numpy_dtype (t : ibis_dtype) : pandas_dtype :=
  match t with
  | Int64 => np_int64
  | Float64 => np_float64
  | Boolean => np_bool
  | String_ => np_object
  end.

(** Modelled from the spec: [DaskUtils.asframe] lies outside the module embedded
    here.  Section 4.4 has the scalar results of an ungrouped
    aggregation assembled into a one-row table; the type of a column is
    inferred from its cell. *)
Definition asframe_row (results : list (string * cell)) : TypedFrame :=
  mkTypedFrame
    (map (fun kv : string * cell =>
            (fst kv, match snd kv with CInt _ => np_int64 | CNull => np_float64 end))
         results)
    [map snd results].

(** The labels of the result: group keys, then metrics. *)
Definition output_labels (groups : list Group) (metrics : list Metric) : list string :=
  map g_out groups ++ map m_name metrics.

(** The renaming of line 393 leaves the labels of the result alone: no
    label is the source column of a group key with another label. *)
Definition labels_kept (groups : list Group) (metrics : list Metric) : Prop :=
  Forall (fun l => rename_label (map (fun g => (g_name g, g_out g)) groups) l = l)
         (output_labels groups metrics).

(** The schema the declaration of the metrics asks for. *)
Definition declared_schema (from_ibis : ibis_dtype -> pandas_dtype)
    (metrics : list Metric) : list (string * pandas_dtype) :=
  map (fun m => (m_name m, from_ibis (m_dtype m))) metrics.

End Aggregate.

(** ** Materializing the result *)

Module Execute.

(** [original.shape] when the expression is a value. *)
Inductive shape : Type := Scalar | Columnar | OtherShape.

(** The node handed to [execute]: a value expression with its shape, or a
    relation. *)
Inductive original : Type :=
| Value (s : shape)
| Relation.

(** What [compile] may return. *)
Inductive compiled : Type :=
| CompiledPandas (df : DataFrame)
| CompiledDask (d : DaskDataFrame)
| CompiledOther.

(** What [execute] returns. *)
Inductive output : Type :=
| OutScalar (c : cell)
| OutColumn (s : list cell)
| OutTable (df : DataFrame).

Section Execute.

(** [PandasData.convert_table] and the schema type come from
    [ibis.formats.pandas]; [execute] is modelled for any conversion. *)
Variable Schema : Type.
Variable convert_table : DataFrame -> Schema -> result DataFrame.

(** [execute], lines 426-448, from the value [compile] returned. *)
Definition execute (node : original) (node_schema : Schema) (result_ : compiled)
    : result output :=
  materialized ← match result_ with
                 | CompiledPandas df => if empty df then Ok df else Raise AssertionError
                 | CompiledDask d => Ok (compute d)
                 | CompiledOther => Raise AssertionError
                 end;
  converted ← convert_table materialized node_schema;
  match node with
  | Value Scalar => OutScalar <$> iat converted 0 0
  | Value Columnar => OutColumn <$> iloc_col converted 0
  | Value OtherShape => Raise (TypeError "Unexpected shape")
  | Relation => Ok (OutTable converted)
  end.

End Execute.

(** Modelled from the spec: [PandasData.convert_table] lies outside the module
    embedded here.  Section 6 describes the conversion from native
    batches as total; with integer-or-null cells on both sides it leaves
    the table as it is. *)
Definition convert_table_total (df : DataFrame) (_ : list string) : result DataFrame :=
  Ok df.

End Execute.

(** ** Rules built on [np.select] *)

Module Select.

(** A choice of [np.select]: one value for every row, or one per row. *)
Inductive choice : Type :=
| Scalar (c : cell)
| Column (l : list cell).

Definition choice_at (ch : choice) (i : nat) : cell :=
  match ch with
  | Scalar c => c
  | Column l => default CNull (l !! i)
  end.

Definition fits (n : nat) (ch : choice) : bool :=
  match ch with
  | Scalar _ => true
  | Column l => Nat.eqb (length l) n
  end.

(** The entry of row [i]: the choice of the first condition that holds
    there, the default when none holds. *)
Fixpoint select_at (i : nat) (condlist : list (list bool)) (choicelist : list choice)
    (default_ : choice) : cell :=
  match condlist, choicelist with
  | c :: cs, ch :: chs =>
      if default false (c !! i) then choice_at ch i else select_at i cs chs default_
  | _, _ => choice_at default_ i
  end.

(** [np.select(condlist, choicelist, default)] on boolean columns.  The
    conditions the rules pass are columns of one partition, of one
    length; operands of another length are refused (numpy would first
    try to broadcast a column of length one). *)
Definition np_select (condlist : list (list bool)) (choicelist : list choice)
    (default_ : choice) : result (list cell) :=
  if negb (Nat.eqb (length condlist) (length choicelist)) then
    Raise (ValueError "list of cases must be same length as list of conditions")
  else
    match condlist with
    | [] => Raise (ValueError "select with an empty condition list is not possible")
    | c :: _ =>
        let n := length c in
        if forallb (fun c' : list bool => Nat.eqb (length c') n) condlist
           && forallb (fits n) choicelist && fits n default_
        then Ok (map (fun i => select_at i condlist choicelist default_) (seq 0 n))
        else Raise (ValueError
                      "shape mismatch: objects cannot be broadcast to a single shape")
    end.

(** [pd.Series(out, index=df.index)] over a partition of [n] rows. *)
Definition pd_Series (out : list cell) (n : nat) : result (list cell) :=
  if decide (length out = n) then Ok out
  else Raise (ValueError "Length of values does not match length of index").

(** [a == b] on two columns: a null equals nothing. *)
Definition cell_eqb (a b : cell) : bool :=
  match a, b with
  | CInt x, CInt y => Z.eqb x y
  | _, _ => false
  end.

Definition series_eq (a b : list cell) : result (list bool) :=
  Relational.zip_exact cell_eqb a b.

(** [visit(op: ops.FindInSet, needle, values)], lines 127-137.  The
    function [mapper] on a partition of [n] rows, and the rule on the
    columns of one partition: [partitionwise], of
    [ibis.backends.dask.helpers], hands [mapper] the part each operand
    has in the partition. *)
Definition FindInSet_mapper (n : nat) (cases : list (list bool)) : result (list cell) :=
  let thens := imap (fun i _ => Scalar (CInt (Z.of_nat i))) cases in
  out ← np_select cases thens (Scalar (CInt (-1)));
  pd_Series out n.

Definition FindInSet_partition (needle : list cell) (values : list (list cell))
    : result (list cell) :=
  cases ← traverse (fun value => series_eq needle value) values;
  FindInSet_mapper (length needle) cases.

(** [visit(op: ops.SimpleCase | ops.SearchedCase, ...)], lines 79-97.  The
    function [mapper] on a partition of [n] rows; the cases are taken
    after [case.astype("bool")], as boolean columns. *)
Definition Case_mapper (n : nat) (cases : list (list bool)) (results : list choice)
    (default_ : choice) : result (list cell) :=
  let cases := cases ++ [replicate n true] in
  let results := results ++ [default_] in
  out ← np_select cases results (Scalar (CInt 0));
  pd_Series out n.

(** A simple case on the columns of one partition: the cases are
    [base == case], line 93. *)
Definition SimpleCase_partition (base : list cell) (cases : list (list cell))
    (results : list choice) (default_ : choice) : result (list cell) :=
  cases ← traverse (fun case => series_eq base case) cases;
  Case_mapper (length base) cases results default_.

End Select.

(** ** Subqueries *)

Module Subquery.

(** [visit(op: PandasScalarSubquery, rel)], lines 411-415. *)
Definition visit_PandasScalarSubquery (rel : DaskDataFrame) : result cell :=
  iat (compute rel) 0 0.

(** The needle of a membership test: a dask series or a scalar; and the
    answer: a series of booleans or one boolean. *)
Inductive needle : Type :=
| NeedleSeries (s : list (list cell))
| NeedleScalar (c : cell).

Inductive answer : Type :=
| AnswerSeries (s : list (list bool))
| AnswerScalar (b : bool).

(** [series.isin(values)]: a null is found among values that hold a
    null. *)
Definition isin (s : list cell) (values : list cell) : list bool :=
  map (fun c => bool_decide (c ∈ values)) s.

(** [x in series]: pandas looks [x] up among the row labels of the
    series, not among its values. *)
Definition contains (labels : list Z) (c : cell) : bool :=
  match c with
  | CInt z => bool_decide (z ∈ labels)
  | CNull => false
  end.

(** [visit(op: ops.InSubquery, rel, needle)], lines 403-409.  [labels] are
    the row labels of [rel.compute()], which the frames of this model do
    not carry. *)
Definition visit_InSubquery (labels : list Z) (rel : DaskDataFrame) (n : needle)
    : result answer :=
  first_column ← iloc_col (compute rel) 0;
  match n with
  | NeedleSeries s => Ok (AnswerSeries (map (fun p => isin p first_column) s))
  | NeedleScalar c => Ok (AnswerScalar (contains labels c))
  end.

End Subquery.

(** ** Arrays and structs *)

Module Nested.

(** A cell of an array column: an array or a null. *)
Inductive array_cell : Type :=
| Arr (l : list cell)
| ANull.

(** [arg.map(lambda v: bool(len(v)), na_action="ignore")]: nulls stay
    null. *)
Definition nonempty_mask (s : list array_cell) : list (option bool) :=
  map (fun v => match v with
                | Arr l => Some (negb (Nat.eqb (length l) 0))
                | ANull => None
                end) s.

Definition keep_masked (s : list array_cell) (mask : list (option bool)) : list array_cell :=
  concat (zip_with (fun v (b : option bool) => if default false b then [v] else []) s mask).

(** [arg[mask]] within a partition.  A mask of booleans selects rows; a
    mask that holds booleans and nulls is refused; a mask of nulls only
    is no mask for pandas, which looks its entries up as row labels and
    finds none. *)
Definition getitem_option_mask (s : list array_cell) (mask : list (option bool))
    : result (list array_cell) :=
  if forallb (fun b : option bool => bool_decide (b <> None)) mask then
    Ok (keep_masked s mask)
  else if forallb (fun b : option bool => bool_decide (b = None)) mask then
    Raise (KeyError "nan")
  else
    Raise (ValueError "Cannot mask with non-boolean array containing NA / NaN values").

(** [series.explode()]: one row per element; an empty array and a null
    give one null row. *)
Definition explode (s : list array_cell) : list cell :=
  concat (map (fun v => match v with
                        | Arr [] | ANull => [CNull]
                        | Arr l => l
                        end) s).

(** [visit(op: ops.Unnest, arg)], lines 158-162, on a dask series: mask
    and explosion work partition by partition. *)
Definition visit_Unnest (arg : list (list array_cell)) : result (list (list cell)) :=
  traverse (fun p => kept ← getitem_option_mask p (nonempty_mask p); Ok (explode kept)) arg.

(** [dict(zip(names, row))], the row function of
    [visit(op: ops.StructColumn, names, values)], lines 145-149: a later
    pair replaces an earlier one with the same name. *)
Definition StructColumn_row (names : list string) (r : row) : gmap string cell :=
  fold_left (fun (m : gmap string cell) (kv : string * cell) => <[fst kv := snd kv]> m)
            (zip names r) ∅.

(** The elements of the arrays of a series. *)
Definition elements (s : list array_cell) : list cell :=
  concat (map (fun v => match v with Arr l => l | ANull => [] end) s).

End Nested.

(** ** Notions used to state further properties of the rules above *)

(** The rows a limit keeps when the identifiers count the rows from 0:
    those at the positions [i] with [off <= i < off + k]. *)
Definition slice (off : Z) (bound : option Z) (rs : list row) : list row :=
  match bound with
  | Some k => take (Z.to_nat (off + k) - Z.to_nat off) (drop (Z.to_nat off) rs)
  | None => drop (Z.to_nat off) rs
  end.

(** The cell of a row under a column position. *)
Definition cell_of (i : nat) (r : row) : cell := default CNull (r !! i).

(** The positions of the grouping columns, and the value of a metric on
    the group of a key. *)
Definition positions_of (cols : list string) (names : list string) : list nat :=
  map (fun n => default 0%nat (col_index n cols)) names.

Definition metric_value (m : Aggregate.Metric) (g : Aggregate.GroupBy) (k : row) : cell :=
  match Aggregate.m_fn m (Reduction.Pandas (Aggregate.group_frame g k)) with
  | Ok v => v
  | Raise _ => CNull
  end.


(** * Properties *)

(** Closes a decidable goal about concrete data by evaluation. *)
Ltac decide_by_computation := apply (bool_decide_unpack _); vm_compute; exact I.

(** ** Fallible computations *)

Lemma traverse_Forall2 {A B : Type} (f : A -> result B) (l : list A) (k : list B) :
  Forall2 (fun x y => f x = Ok y) l k -> traverse f l = Ok k.
Proof.
  induction 1 as [|x y l k Hxy _ IH]; simpl; [reflexivity|].
  rewrite Hxy. simpl. rewrite IH. reflexivity.
Qed.

Lemma traverse_map {A B : Type} (f : A -> result B) (g : A -> B) (l : list A) :
  Forall (fun x => f x = Ok (g x)) l -> traverse f l = Ok (map g l).
Proof.
  intros H. apply traverse_Forall2. induction H; simpl; constructor; auto.
Qed.

(** ** Columns *)

Lemma col_index_None (c : string) (cols : list string) :
  c ∉ cols -> col_index c cols = None.
Proof.
  induction cols as [|c' cs IH]; simpl; intros Hc; [reflexivity|].
  rewrite not_elem_of_cons in Hc. destruct Hc as [Hne Hc].
  destruct (decide (c = c')); [contradiction|].
  rewrite (IH Hc). reflexivity.
Qed.

Lemma col_index_Some_elem (c : string) (cols : list string) (i : nat) :
  col_index c cols = Some i -> cols !! i = Some c.
Proof.
  revert i. induction cols as [|c' cs IH]; simpl; intros i H; [discriminate|].
  destruct (decide (c = c')) as [->|Hne].
  - injection H as <-. reflexivity.
  - destruct (col_index c cs) as [j|] eqn:E; simpl in H; [|discriminate].
    injection H as <-. simpl. apply IH. reflexivity.
Qed.

Lemma col_index_app_fresh (c : string) (cols rest : list string) :
  c ∉ cols -> col_index c (cols ++ c :: rest) = Some (length cols).
Proof.
  induction cols as [|c' cs IH]; simpl; intros Hc.
  - destruct (decide (c = c)); [reflexivity|contradiction].
  - rewrite not_elem_of_cons in Hc. destruct Hc as [Hne Hc].
    destruct (decide (c = c')); [contradiction|].
    rewrite (IH Hc). reflexivity.
Qed.

Lemma filter_fresh (c : string) (cols rest : list string) :
  c ∉ cols -> c ∉ rest ->
  List.filter (fun x => bool_decide (x ≠ c)) (cols ++ c :: rest) = cols ++ rest.
Proof.
  intros Hc Hr.
  assert (Hid : forall l : list string, c ∉ l ->
            List.filter (fun x => bool_decide (x ≠ c)) l = l).
  { induction l as [|x l IH]; simpl; intros Hl; [reflexivity|].
    rewrite not_elem_of_cons in Hl. destruct Hl as [Hne Hl].
    rewrite bool_decide_true by congruence. rewrite (IH Hl). reflexivity. }
  rewrite List.filter_app. simpl.
  rewrite bool_decide_false by (intros H; apply H; reflexivity).
  rewrite (Hid cols Hc), (Hid rest Hr). reflexivity.
Qed.

Lemma drop_label_fresh {A : Type} (c : string) (cols rest : list string)
    (r : list A) (v : A) (vs : list A) :
  c ∉ cols -> c ∉ rest -> length r = length cols -> length vs = length rest ->
  drop_label c (cols ++ c :: rest) (r ++ v :: vs) = r ++ vs.
Proof.
  intros Hc Hr. revert r.
  assert (Hid : forall (l : list string) (k : list A), c ∉ l -> length k = length l ->
            drop_label c l k = k).
  { induction l as [|x l IH]; intros [|y k] Hl Hlen; simpl in *; try discriminate;
      try reflexivity.
    rewrite not_elem_of_cons in Hl. destruct Hl as [Hne Hl].
    destruct (decide (x = c)); [congruence|].
    rewrite IH; [reflexivity|assumption|lia]. }
  induction cols as [|c' cs IH]; intros [|y r] Hlen Hvs; simpl in *; try discriminate.
  - destruct (decide (c = c)); [|contradiction]. apply Hid; assumption.
  - rewrite not_elem_of_cons in Hc. destruct Hc as [Hne Hc].
    destruct (decide (c' = c)); [congruence|].
    rewrite IH; [reflexivity|assumption|lia|assumption].
Qed.


(** ** Limit *)

Import Limit.

Lemma with_column_fresh (p : DataFrame) (name : string) (vals : list cell) :
  name ∉ columns p ->
  with_column p name vals =
    mkDF (columns p ++ [name]) (zip_with (fun (r : row) v => r ++ [v]) (rows p) vals).
Proof. intros H. unfold with_column. rewrite (col_index_None _ _ H). reflexivity. Qed.

Lemma last_cells (w : nat) (rs : list row) (vals : list cell) :
  Forall (fun r : row => length r = w) rs -> length vals = length rs ->
  map (fun r : row => default CNull (r !! w))
      (zip_with (fun (r : row) v => r ++ [v]) rs vals) = vals.
Proof.
  intros H. revert vals. induction H as [|r rs Hr _ IH]; intros [|v vals] Hlen;
    simpl in Hlen; try discriminate; try reflexivity.
  cbn [zip_with map]. rewrite IH by lia. f_equal.
  rewrite lookup_app_r by lia. rewrite Hr, Nat.sub_diag. reflexivity.
Qed.

Lemma unwrap_denotes (a : limit_arg) (z : Z) :
  denotes_int a z -> unwrap a = Ok (SInt z).
Proof. intros [z'|df z' H]; simpl; [reflexivity|]. rewrite H. reflexivity. Qed.

Lemma mask_between (off k : Z) (ids : list Z) :
  zip_with andb (map (cell_ge off) (CInt <$> ids)) (map (cell_le (off + k - 1)) (CInt <$> ids))
  = map (in_range off (Some k)) ids.
Proof. induction ids as [|i ids IH]; simpl; [reflexivity|]. f_equal. exact IH. Qed.

Lemma mask_from (off : Z) (ids : list Z) :
  map (cell_ge off) (CInt <$> ids) = map (in_range off None) ids.
Proof. induction ids as [|i ids IH]; simpl; [reflexivity|]. f_equal. exact IH. Qed.

Lemma mask_rows_select (keep : Z -> bool) (rs : list row) (ids : list Z) :
  length ids = length rs ->
  mask_rows rs (map keep ids) = select_rows keep rs ids.
Proof.
  intros Hlen. revert ids Hlen. unfold select_rows.
  induction rs as [|r rs IH]; intros [|i ids] Hlen; simpl in *; try discriminate;
    try reflexivity.
  destruct (keep i); simpl; rewrite IH by lia; reflexivity.
Qed.

Lemma limit_df_numbered (p : DataFrame) (name : string) (ids : list Z)
    (n offset : limit_arg) (off : Z) (bound : option Z) :
  wf_df p -> name ∉ columns p -> length ids = len p ->
  denotes_int offset off -> stands_for n bound ->
  limit_df (with_column p name (CInt <$> ids)) name n offset =
    Ok (mkDF (columns p ++ [name])
          (mask_rows (zip_with (fun (r : row) v => r ++ [v]) (rows p) (CInt <$> ids))
                     (map (in_range off bound) ids))).
Proof.
  intros Hwf Hfresh Hlen Hoff Hn.
  rewrite with_column_fresh by assumption.
  unfold limit_df. rewrite (unwrap_denotes _ _ Hoff). simpl.
  assert (Hids : getitem
            {| columns := columns p ++ [name];
               rows := zip_with (fun (r : row) v => r ++ [v]) (rows p) (CInt <$> ids) |}
            name = Ok (CInt <$> ids)).
  { unfold getitem. simpl. rewrite col_index_app_fresh by assumption.
    rewrite last_cells; [reflexivity|exact Hwf|].
    rewrite length_fmap. exact Hlen. }
  assert (Hmask : forall m : list bool, length m = length ids ->
            getitem_mask
              {| columns := columns p ++ [name];
                 rows := zip_with (fun (r : row) v => r ++ [v]) (rows p) (CInt <$> ids) |} m
            = Ok (mkDF (columns p ++ [name])
                    (mask_rows (zip_with (fun (r : row) v => r ++ [v]) (rows p) (CInt <$> ids)) m))).
  { intros m Hm. unfold getitem_mask, len. simpl.
    rewrite length_zip_with, length_fmap.
    unfold len in Hlen.
    destruct (decide (length m = length (rows p) `min` length ids)%nat) as [_|Hne];
      [reflexivity|lia]. }
  destruct bound as [k|]; simpl in Hn.
  - rewrite (unwrap_denotes _ _ Hn). simpl. rewrite Hids. simpl.
    rewrite mask_between. apply Hmask. apply length_map.
  - subst n. simpl. rewrite Hids. simpl.
    rewrite mask_from. apply Hmask. apply length_map.
Qed.

Lemma map_mask_rows {A B : Type} (f : A -> B) (l : list A) (m : list bool) :
  map f (mask_rows l m) = mask_rows (map f l) m.
Proof.
  revert m. induction l as [|x l IH]; intros [|b m]; simpl; try reflexivity.
  destruct b; simpl; rewrite IH; reflexivity.
Qed.

Lemma drop_last_label (name : string) (cols : list string) (rs : list row)
    (vals : list cell) :
  name ∉ cols -> Forall (fun r : row => length r = length cols) rs ->
  length vals = length rs ->
  map (drop_label name (cols ++ [name]))
      (zip_with (fun (r : row) v => r ++ [v]) rs vals) = rs.
Proof.
  intros Hfresh H. revert vals.
  induction H as [|r rs Hr _ IH]; intros [|v vals] Hlen; simpl in Hlen;
    try discriminate; try reflexivity.
  cbn [zip_with map]. rewrite IH by lia. f_equal.
  rewrite (drop_label_fresh name cols [] r v []); auto using app_nil_r.
  apply not_elem_of_nil.
Qed.

Lemma drop_numbered (p : DataFrame) (name : string) (ids : list Z) (keep : Z -> bool) :
  wf_df p -> name ∉ columns p -> length ids = len p ->
  drop_columns
    (mkDF (columns p ++ [name])
       (mask_rows (zip_with (fun (r : row) v => r ++ [v]) (rows p) (CInt <$> ids))
                  (map keep ids)))
    [name]
  = Ok (mkDF (columns p) (select_rows keep (rows p) ids)).
Proof.
  intros Hwf Hfresh Hlen. unfold drop_columns, drop1. cbn [columns rows].
  rewrite col_index_app_fresh by assumption. simpl.
  rewrite (filter_fresh name (columns p) []) by (auto; apply not_elem_of_nil).
  rewrite app_nil_r, map_mask_rows.
  rewrite drop_last_label; [|assumption|exact Hwf|rewrite length_fmap; exact Hlen].
  rewrite mask_rows_select by exact Hlen. reflexivity.
Qed.

Lemma consecutive_covers (d : DaskDataFrame) : covers consecutive d.
Proof.
  unfold covers, consecutive. generalize 0. induction (partitions d) as [|p ps IH];
    intros start; simpl; constructor.
  - rewrite length_seqZ. unfold len. lia.
  - apply IH.
Qed.

Lemma traverse_zip_with {A B C D : Type} (f : C -> result D) (g : A -> B -> C)
    (h : A -> B -> D) (l : list A) (k : list B) :
  Forall2 (fun x y => f (g x y) = Ok (h x y)) l k ->
  traverse f (zip_with g l k) = Ok (zip_with h l k).
Proof.
  induction 1 as [|x y l k Hxy _ IH]; simpl; [reflexivity|].
  rewrite Hxy. simpl. rewrite IH. reflexivity.
Qed.

Lemma limit_selects_by_identifier
    (identifiers : list DataFrame -> list (list Z))
    (name : string) (parent : DaskDataFrame) (n offset : limit_arg)
    (off : Z) (bound : option Z) :
  wf_ddf parent ->
  covers identifiers parent ->
  name ∉ columns (_meta parent) ->
  denotes_int offset off ->
  stands_for n bound ->
  exists limited,
    visit_PandasLimit identifiers name parent n offset = Ok limited
    /\ columns (_meta limited) = columns (_meta parent)
    /\ partitions limited =
         zip_with (fun p ids => mkDF (columns p) (select_rows (in_range off bound) (rows p) ids))
                  (partitions parent) (identifiers (partitions parent)).
Proof.
  intros Hwf Hcov Hfresh Hoff Hn.
  unfold visit_PandasLimit, map_partitions, add_globally_consecutive_column.
  cbn [partitions _meta].
  assert (Hall : Forall2 (fun p ids => wf_df p /\ (name ∉ columns p) /\ length ids = len p)
                   (partitions parent) (identifiers (partitions parent))).
  { unfold covers in Hcov. unfold wf_ddf in Hwf. revert Hwf.
    induction Hcov as [|p ids ps idss Hp _ IH]; intros Hwf; constructor.
    - apply Forall_cons in Hwf. destruct Hwf as [[Hc Hw] _].
      rewrite Hc. auto.
    - apply IH. apply Forall_cons in Hwf. tauto. }
  rewrite (traverse_zip_with _ _
             (fun p ids => mkDF (columns p ++ [name])
                (mask_rows (zip_with (fun (r : row) v => r ++ [v]) (rows p) (CInt <$> ids))
                           (map (in_range off bound) ids)))).
  2:{ eapply Forall2_impl; [exact Hall|]. intros p ids (Hw & Hf & Hl).
      apply limit_df_numbered; assumption. }
  cbn [mbind result_bind]. unfold dask_drop. cbn [partitions _meta].
  assert (Hmeta : exists rs, drop_columns (with_column (_meta parent) name []) [name]
                             = Ok (mkDF (columns (_meta parent)) rs)).
  { rewrite with_column_fresh by assumption.
    unfold drop_columns, drop1. cbn [columns rows].
    rewrite col_index_app_fresh by assumption. cbn [mbind result_bind].
    rewrite (filter_fresh name (columns (_meta parent)) []) by (auto; apply not_elem_of_nil).
    rewrite app_nil_r. eexists. reflexivity. }
  destruct Hmeta as [rs ->]. cbn [mbind result_bind].
  rewrite (traverse_zip_with _ _
             (fun p ids => mkDF (columns p) (select_rows (in_range off bound) (rows p) ids))).
  2:{ eapply Forall2_impl; [exact Hall|]. intros p ids (Hw & Hf & Hl).
      apply drop_numbered; assumption. }
  cbn [mbind result_bind]. eexists. split; [reflexivity|].
  cbn [_meta partitions columns]. split; reflexivity.
Qed.



(** *** Consecutive identifiers: limit is a slice of the rows *)

Lemma select_rows_app (keep : Z -> bool) (l1 l2 : list (list cell)) (start : Z) :
  select_rows keep (l1 ++ l2) (seqZ start (Z.of_nat (length (l1 ++ l2))))
  = select_rows keep l1 (seqZ start (Z.of_nat (length l1)))
    ++ select_rows keep l2 (seqZ (start + Z.of_nat (length l1)) (Z.of_nat (length l2))).
Proof.
  unfold select_rows. rewrite length_app, Nat2Z.inj_add, seqZ_app by lia.
  rewrite zip_with_app by (rewrite length_seqZ; lia).
  rewrite List.filter_app, fmap_app. reflexivity.
Qed.

Lemma select_rows_consecutive (keep : Z -> bool) (ps : list DataFrame) (start : Z) :
  concat (map rows (zip_with (fun p ids => mkDF (columns p) (select_rows keep (rows p) ids))
                             ps (row_ids start ps)))
  = select_rows keep (concat (map rows ps))
                (seqZ start (Z.of_nat (length (concat (map rows ps))))).
Proof.
  revert start. induction ps as [|p ps IH]; intros start; simpl; [reflexivity|].
  rewrite select_rows_app, IH. reflexivity.
Qed.

Lemma select_rows_cons (keep : Z -> bool) (r : list cell) (rs : list (list cell)) (start : Z) :
  select_rows keep (r :: rs) (seqZ start (Z.of_nat (length (r :: rs))))
  = (if keep start then [r] else [])
    ++ select_rows keep rs (seqZ (start + 1) (Z.of_nat (length rs))).
Proof.
  change (r :: rs) with ([r] ++ rs). rewrite select_rows_app. f_equal.
  unfold select_rows. change (seqZ start (Z.of_nat (length [r]))) with [0 + start].
  rewrite Z.add_0_l. simpl. destruct (keep start); reflexivity.
Qed.

(** Inside the window only a prefix is kept. *)
Lemma select_rows_bounded (off k : Z) (rs : list (list cell)) (start : Z) :
  off <= start ->
  select_rows (in_range off (Some k)) rs (seqZ start (Z.of_nat (length rs)))
  = take (Z.to_nat (off + k - start)) rs.
Proof.
  revert start. induction rs as [|r rs IH]; intros start Hs.
  - rewrite take_nil. reflexivity.
  - rewrite select_rows_cons, IH by lia. unfold in_range.
    rewrite bool_decide_true by lia. simpl.
    case_bool_decide; simpl.
    + replace (Z.to_nat (off + k - start)) with (S (Z.to_nat (off + k - (start + 1)))) by lia.
      reflexivity.
    + replace (Z.to_nat (off + k - start)) with 0%nat by lia.
      replace (Z.to_nat (off + k - (start + 1))) with 0%nat by lia. reflexivity.
Qed.

Lemma select_rows_window (off k : Z) (rs : list (list cell)) (start : Z) :
  start <= off -> 0 <= k ->
  select_rows (in_range off (Some k)) rs (seqZ start (Z.of_nat (length rs)))
  = take (Z.to_nat k) (drop (Z.to_nat (off - start)) rs).
Proof.
  revert start. induction rs as [|r rs IH]; intros start Hs Hk.
  - rewrite drop_nil, take_nil. reflexivity.
  - destruct (decide (start = off)) as [->|Hne].
    + rewrite select_rows_bounded by lia. rewrite Z.sub_diag. simpl.
      f_equal. lia.
    + rewrite select_rows_cons, IH by lia. unfold in_range.
      rewrite bool_decide_false by lia. simpl.
      replace (Z.to_nat (off - start)) with (S (Z.to_nat (off - (start + 1)))) by lia.
      reflexivity.
Qed.

Lemma select_rows_all (off : Z) (rs : list (list cell)) (start : Z) :
  off <= start ->
  select_rows (in_range off None) rs (seqZ start (Z.of_nat (length rs))) = rs.
Proof.
  revert start. induction rs as [|r rs IH]; intros start Hs; [reflexivity|].
  rewrite select_rows_cons, IH by lia. unfold in_range.
  rewrite bool_decide_true by lia. reflexivity.
Qed.

Lemma select_rows_from (off : Z) (rs : list (list cell)) (start : Z) :
  start <= off ->
  select_rows (in_range off None) rs (seqZ start (Z.of_nat (length rs)))
  = drop (Z.to_nat (off - start)) rs.
Proof.
  revert start. induction rs as [|r rs IH]; intros start Hs.
  - rewrite drop_nil. reflexivity.
  - destruct (decide (start = off)) as [->|Hne].
    + rewrite select_rows_all by lia. rewrite Z.sub_diag. reflexivity.
    + rewrite select_rows_cons, IH by lia. unfold in_range.
      rewrite bool_decide_false by lia. simpl.
      replace (Z.to_nat (off - start)) with (S (Z.to_nat (off - (start + 1)))) by lia.
      reflexivity.
Qed.

(** With consecutive identifiers, limit and offset select the slice of
    the rows of the parent, read in partition order, that starts at
    [offset] and has at most [n] rows. *)
Lemma limit_is_a_slice (name : string) (parent : DaskDataFrame) (n offset : limit_arg)
    (off : Z) (bound : option Z) :
  wf_ddf parent -> name ∉ columns (_meta parent) ->
  denotes_int offset off -> stands_for n bound ->
  0 <= off -> (forall k, bound = Some k -> 0 <= k) ->
  exists limited,
    visit_PandasLimit consecutive name parent n offset = Ok limited
    /\ rows (compute limited)
       = match bound with
         | Some k => take (Z.to_nat k) (drop (Z.to_nat off) (rows (compute parent)))
         | None => drop (Z.to_nat off) (rows (compute parent))
         end.
Proof.
  intros Hwf Hfresh Hoff Hn Hpos Hk.
  destruct (limit_selects_by_identifier consecutive name parent n offset off bound
              Hwf (consecutive_covers parent) Hfresh Hoff Hn) as (limited & Hl & _ & Hp).
  exists limited. split; [exact Hl|]. unfold compute. simpl. rewrite Hp.
  unfold consecutive. rewrite select_rows_consecutive.
  destruct bound as [k|].
  - rewrite select_rows_window by (try lia; apply Hk; reflexivity).
    rewrite Z.sub_0_r. reflexivity.
  - rewrite select_rows_from by lia. rewrite Z.sub_0_r. reflexivity.
Qed.

Import Reduction.

(** ** The scan behind argmin / argmax *)

Section Scan.

Context {P : Type} (m : method).

Implicit Types (l : list (cell * P)) (b : option (Z * P)).

Lemma scan_app l1 l2 b : scan m (l1 ++ l2) b = scan m l2 (scan m l1 b).
Proof.
  revert b. induction l1 as [|[[z|] p] l1 IH]; intros b; simpl; auto.
  destruct b as [[bz bp]|]; auto. destruct (better m z bz); auto.
Qed.

Lemma better_trans x y z : better m x y = true -> better m y z = true -> better m x z = true.
Proof.
  destruct m; simpl; rewrite !bool_decide_eq_true; lia.
Qed.

Lemma not_better_trans x y z :
  better m x y = false -> better m y z = false -> better m x z = false.
Proof.
  destruct m; simpl; rewrite !bool_decide_eq_false; lia.
Qed.

Lemma scan_Some l x : scan m l (Some x) = merge m x (scan m l None).
Proof.
  revert x. induction l as [|[[z|] p] l IH]; intros [xz xp]; simpl; auto.
  rewrite (IH (z, p)).
  destruct (better m z xz) eqn:Hzx.
  - unfold merge. destruct (scan m l None) as [[yz yp]|]; simpl.
    + destruct (better m yz z) eqn:Hyz; simpl.
      * rewrite (better_trans _ _ _ Hyz Hzx). reflexivity.
      * rewrite Hzx. reflexivity.
    + rewrite Hzx. reflexivity.
  - rewrite (IH (xz, xp)). unfold merge. destruct (scan m l None) as [[yz yp]|]; simpl.
    + destruct (better m yz z) eqn:Hyz; simpl.
      * reflexivity.
      * rewrite Hzx. rewrite (not_better_trans _ _ _ Hyz Hzx). reflexivity.
    + rewrite Hzx. reflexivity.
Qed.

Lemma scan_entries l b : scan m (entries (scan m l None)) b = scan m l b.
Proof.
  destruct b as [x|].
  - rewrite (scan_Some l x). destruct (scan m l None) as [[yz yp]|]; simpl; [|reflexivity].
    destruct x as [xz xp]. simpl. destruct (better m yz xz); reflexivity.
  - destruct (scan m l None) as [[yz yp]|]; reflexivity.
Qed.

Lemma scan_concat_entries (ls : list (list (cell * P))) b :
  scan m (concat (map (fun l => entries (scan m l None)) ls)) b = scan m (concat ls) b.
Proof.
  revert b. induction ls as [|l ls IH]; intros b; simpl; [reflexivity|].
  rewrite !scan_app, scan_entries. apply IH.
Qed.

Lemma scan_elem l b z p :
  scan m l b = Some (z, p) -> b = Some (z, p) \/ (CInt z, p) ∈ l.
Proof.
  revert b. induction l as [|[[k|] q] l IH]; intros b H; simpl in H; auto.
  - assert (Hcase : scan m l (Some (k, q)) = Some (z, p) \/ scan m l b = Some (z, p)).
    { destruct b as [[bz bp]|]; auto. destruct (better m k bz); auto. }
    destruct Hcase as [H'|H']; apply IH in H'; destruct H' as [H'|H'].
    + injection H' as -> ->. right. left.
    + right. right. assumption.
    + left. assumption.
    + right. right. assumption.
  - apply IH in H. destruct H; [left|right; right]; assumption.
Qed.

Lemma scan_is_Some l b z p : (CInt z, p) ∈ l -> is_Some (scan m l b).
Proof.
  intros H. apply list_elem_of_split in H. destruct H as (l1 & l2 & ->).
  rewrite scan_app. simpl.
  assert (Hs : forall l x, is_Some (scan m l (Some x))).
  { intros l x. rewrite scan_Some. unfold merge.
    destruct (scan m l None) as [y|]; [destruct (better m y.1 x.1)|]; eauto. }
  destruct (scan m l1 b) as [[bz bp]|]; [destruct (better m z bz)|]; apply Hs.
Qed.

End Scan.

Lemma scan_payload {P Q : Type} (m : method) (f : P -> Q) (l : list (cell * P))
    (b : option (Z * P)) :
  scan m (map (fun cp => (fst cp, f (snd cp))) l) (prod_map id f <$> b)
  = prod_map id f <$> scan m l b.
Proof.
  revert b. induction l as [|[[z|] p] l IH]; intros b; simpl; auto.
  destruct b as [[bz bp]|]; simpl.
  - destruct (better m z bz).
    + apply (IH (Some (z, p))).
    + apply (IH (Some (bz, bp))).
  - apply (IH (Some (z, p))).
Qed.

(** ** Chunk, combine and aggregate on frames *)

Lemma indexed_positions (rs : list (list cell)) :
  map (fun cp : cell * (Z * list cell) => (fst cp, fst (snd cp))) (indexed rs)
  = positioned (map key0 rs).
Proof.
  unfold indexed, positioned. rewrite length_map.
  generalize (seqZ 0 (Z.of_nat (length rs))) as idx.
  induction rs as [|r rs IH]; intros [|i idx]; simpl; try reflexivity.
  f_equal. apply IH.
Qed.

Lemma indexed_rows (rs : list (list cell)) :
  map (fun cp : cell * (Z * list cell) => (fst cp, snd (snd cp))) (indexed rs) = keyed rs.
Proof.
  unfold indexed, keyed.
  assert (H : length (seqZ 0 (Z.of_nat (length rs))) = length rs)
    by (rewrite length_seqZ; lia).
  revert H. generalize (seqZ 0 (Z.of_nat (length rs))) as idx.
  induction rs as [|r rs IH]; intros [|i idx] H; simpl in *; try discriminate;
    try reflexivity.
  f_equal. apply IH. lia.
Qed.

Lemma indexed_elem (rs : list (list cell)) c i r :
  (c, (i, r)) ∈ indexed rs ->
  0 <= i < Z.of_nat (length rs) /\ rs !! Z.to_nat i = Some r /\ c = key0 r.
Proof.
  unfold indexed. intros H. apply list_elem_of_lookup in H. destruct H as [j H].
  apply lookup_zip_with_Some in H. destruct H as (r' & i' & Heq & Hr & Hi).
  injection Heq as -> -> ->.
  apply lookup_seqZ in Hi. destruct Hi as [-> Hj].
  rewrite Z.add_0_l, Nat2Z.id. split; [lia|]. split; [assumption|reflexivity].
Qed.

Lemma series_arg_winner (m : method) (rs : list (list cell)) :
  rs <> [] ->
  match winner m rs with
  | Some w =>
      exists i, series_arg m (map key0 rs) = Ok i
                /\ 0 <= i < Z.of_nat (length rs) /\ rs !! Z.to_nat i = Some w
                /\ exists z, key0 w = CInt z
  | None => series_arg m (map key0 rs) = Ok (-1)
  end.
Proof.
  intros Hne. unfold winner, series_arg.
  rewrite <- indexed_positions, <- indexed_rows.
  pose proof (scan_payload m fst (indexed rs) None) as Hp. simpl in Hp. rewrite Hp.
  pose proof (scan_payload m snd (indexed rs) None) as Hr. simpl in Hr. rewrite Hr.
  destruct (map key0 rs) eqn:Hk; [destruct rs; [contradiction|discriminate]|].
  destruct (scan m (indexed rs) None) as [[z [i w]]|] eqn:Hs; simpl; [|reflexivity].
  apply scan_elem in Hs. destruct Hs as [Hs|Hs]; [discriminate|].
  apply indexed_elem in Hs. destruct Hs as (Hi & Hw & Hz).
  exists i. repeat split; try assumption; try lia. exists z. congruence.
Qed.

Lemma py_slice_one {A : Type} (l : list A) (i : Z) (x : A) :
  0 <= i < Z.of_nat (length l) -> l !! Z.to_nat i = Some x ->
  py_slice l i (i + 1) = [x].
Proof.
  intros Hi Hx. unfold py_slice, clamp.
  rewrite !bool_decide_false by lia.
  replace (Z.to_nat (i + 1) `min` length l - Z.to_nat i `min` length l)%nat with 1%nat by lia.
  replace (Z.to_nat i `min` length l)%nat with (Z.to_nat i) by lia.
  rewrite (drop_S _ _ _ Hx). reflexivity.
Qed.

Lemma py_slice_none {A : Type} (l : list A) : py_slice l (-1) (-1 + 1) = [].
Proof.
  unfold py_slice, clamp. change (-1 + 1) with 0.
  repeat case_bool_decide; try lia.
  replace (Z.to_nat 0 `min` length l - Z.to_nat (0 `max` (Z.of_nat (length l) + -1)))%nat
    with 0%nat by lia.
  reflexivity.
Qed.

Lemma occurrences_NoDup (c : string) (cols : list string) :
  NoDup cols -> (occurrences c cols <= 1)%nat.
Proof.
  unfold occurrences. induction 1 as [|x cols Hx _ IH]; simpl; [lia|].
  case_bool_decide; simpl; [|assumption]. subst x.
  assert (Hz : List.filter (fun x => bool_decide (x = c)) cols = []).
  { clear IH. induction cols as [|y cols IH]; simpl; [reflexivity|].
    rewrite not_elem_of_cons in Hx. destruct Hx as [Hne Hx].
    rewrite bool_decide_false by congruence. apply IH. assumption. }
  rewrite Hz. simpl. lia.
Qed.

Lemma argminmax_chunk_rows (m : method) (key arg : string) (df : DataFrame) (ik iv : nat) :
  col_index key (columns df) = Some ik -> col_index arg (columns df) = Some iv ->
  (occurrences key (columns df) <= 1)%nat ->
  rows df <> [] ->
  argminmax_chunk key arg m df
  = Ok (mkDF [key; arg] (option_rows (winner m (map (proj ik iv) (rows df))))).
Proof.
  intros Hk Hv Hocc Hne. unfold argminmax_chunk, column_arg, getitem, getitem2.
  rewrite Hk, Hv. simpl. rewrite bool_decide_false by lia.
  assert (Hkeys : map (fun r : list cell => default CNull (r !! ik)) (rows df)
                  = map key0 (map (proj ik iv) (rows df))).
  { rewrite map_map. reflexivity. }
  rewrite Hkeys.
  assert (Hne' : map (proj ik iv) (rows df) <> []) by (destruct (rows df); [contradiction|discriminate]).
  pose proof (series_arg_winner m _ Hne') as Hw.
  fold (proj ik iv).
  change (map (fun r : list cell => [default CNull (r !! ik); default CNull (r !! iv)]) (rows df))
    with (map (proj ik iv) (rows df)).
  destruct (winner m (map (proj ik iv) (rows df))) as [w|].
  - destruct Hw as (i & -> & Hi & Hl & _). simpl.
    rewrite (py_slice_one _ _ _ Hi Hl). reflexivity.
  - rewrite Hw. simpl. rewrite py_slice_none. reflexivity.
Qed.

Lemma keyed_elem (rs : list (list cell)) c r :
  (c, r) ∈ keyed rs -> r ∈ rs /\ c = key0 r.
Proof.
  unfold keyed. intros H. apply list_elem_of_fmap in H. destruct H as (r' & Heq & Hr).
  injection Heq as -> ->. split; [assumption|reflexivity].
Qed.

Lemma winner_elem (m : method) (rs : list (list cell)) w :
  winner m rs = Some w -> w ∈ rs /\ exists z, key0 w = CInt z.
Proof.
  unfold winner. destruct (scan m (keyed rs) None) as [[z w']|] eqn:Hs; simpl; [|discriminate].
  intros [= <-]. apply scan_elem in Hs. destruct Hs as [Hs|Hs]; [discriminate|].
  apply keyed_elem in Hs. destruct Hs as [Hin Hz]. eauto.
Qed.

Lemma winner_is_Some (m : method) (rs : list (list cell)) r z :
  r ∈ rs -> key0 r = CInt z -> is_Some (winner m rs).
Proof.
  intros Hr Hz. unfold winner.
  assert (Hin : (CInt z, r) ∈ keyed rs).
  { unfold keyed. apply list_elem_of_fmap. exists r. split; [|assumption].
    unfold key0 in Hz. rewrite Hz. reflexivity. }
  destruct (scan_is_Some m (keyed rs) None z r Hin) as [x ->]. simpl. eauto.
Qed.

Lemma keyed_winner (m : method) (rs : list (list cell)) :
  keyed (option_rows (winner m rs)) = entries (scan m (keyed rs) None).
Proof.
  unfold winner. destruct (scan m (keyed rs) None) as [[z w]|] eqn:Hs; simpl; [|reflexivity].
  apply scan_elem in Hs. destruct Hs as [Hs|Hs]; [discriminate|].
  apply keyed_elem in Hs. destruct Hs as [_ ->]. reflexivity.
Qed.

Lemma keyed_concat (rss : list (list (list cell))) :
  keyed (concat rss) = concat (map keyed rss).
Proof.
  unfold keyed. induction rss as [|rs rss IH]; simpl; [reflexivity|].
  rewrite map_app, IH. reflexivity.
Qed.

(** Replacing groups of rows by their winners does not change the overall
    winner. *)
Lemma winner_of_winners (m : method) (rss : list (list (list cell))) :
  winner m (concat (map (fun rs => option_rows (winner m rs)) rss)) = winner m (concat rss).
Proof.
  unfold winner at 1 3. rewrite !keyed_concat, !map_map.
  rewrite (map_ext _ (fun rs => entries (scan m (keyed rs) None)))
    by (intros rs; apply keyed_winner).
  rewrite <- (map_map keyed (fun l => entries (scan m l None))).
  rewrite scan_concat_entries. reflexivity.
Qed.

Section Partials.

Context (m : method) (key arg : string) (Hne : key <> arg).

Lemma rows_of_partials (fs : list DataFrame) :
  Forall (is_partial key arg) fs -> Forall (fun r => exists z v, r = [CInt z; v]) (rows_of fs).
Proof.
  unfold rows_of. induction 1 as [|f fs [_ (z & v & Hr)] _ IH]; simpl; [constructor|].
  rewrite Hr. simpl. constructor; eauto.
Qed.

Lemma concat_partials (fs : list DataFrame) :
  fs <> [] -> Forall (is_partial key arg) fs -> _concat fs = mkDF [key; arg] (rows_of fs).
Proof.
  intros Hfs Hp. unfold _concat.
  assert (Hf : List.filter (fun p => negb (Nat.eqb (len p) 0)) fs = fs).
  { clear Hfs. induction Hp as [|f fs [_ (z & v & Hr)] _ IH]; simpl; [reflexivity|].
    unfold len at 1. rewrite Hr. simpl. rewrite IH. reflexivity. }
  rewrite Hf. destruct fs as [|f fs]; [contradiction|].
  unfold pd_concat. apply Forall_cons in Hp. destruct Hp as [[Hc _] _]. rewrite Hc.
  reflexivity.
Qed.

Lemma proj_partial_rows (rs : list (list cell)) :
  Forall (fun r => exists z v, r = [CInt z; v]) rs -> map (proj 0 1) rs = rs.
Proof.
  induction 1 as [|r rs (z & v & ->) _ IH]; simpl; [reflexivity|].
  rewrite IH. reflexivity.
Qed.

Lemma col_index_partial :
  col_index key [key; arg] = Some 0%nat /\ col_index arg [key; arg] = Some 1%nat.
Proof.
  simpl. destruct (decide (key = key)); [|contradiction].
  destruct (decide (arg = key)); [congruence|].
  destruct (decide (arg = arg)); [|contradiction]. auto.
Qed.

Lemma occurrences_partial : occurrences key [key; arg] = 1%nat.
Proof.
  unfold occurrences. simpl. rewrite bool_decide_true by reflexivity.
  rewrite bool_decide_false by congruence. reflexivity.
Qed.

Lemma winner_partial (rs : list (list cell)) :
  rs <> [] -> Forall (fun r => exists z v, r = [CInt z; v]) rs ->
  (is_partial key arg) (mkDF [key; arg] (option_rows (winner m rs))).
Proof.
  intros Hrs Hall. split; [reflexivity|]. simpl.
  destruct rs as [|r rs]; [contradiction|].
  pose proof Hall as Hall'. apply Forall_cons in Hall'.
  destruct Hall' as [(z & v & ->) _].
  destruct (winner_is_Some m ([CInt z; v] :: rs) [CInt z; v] z) as [w Hw];
    [left|reflexivity|].
  rewrite Hw. simpl. apply winner_elem in Hw. destruct Hw as [Hin _].
  rewrite Forall_forall in Hall. destruct (Hall w Hin) as (z' & v' & ->). eauto.
Qed.

Lemma combine_group (g : list DataFrame) :
  g <> [] -> Forall (is_partial key arg) g ->
  argminmax_chunk key arg m (_concat g)
  = Ok (mkDF [key; arg] (option_rows (winner m (rows_of g)))).
Proof.
  intros Hg Hp. rewrite concat_partials by assumption.
  destruct col_index_partial as [Hk Hv].
  rewrite (argminmax_chunk_rows m key arg _ 0 1); simpl; try assumption.
  - rewrite proj_partial_rows by (apply rows_of_partials; assumption). reflexivity.
  - fold (occurrences key [key; arg]). rewrite occurrences_partial. lia.
  - destruct g as [|f g]; [contradiction|]. apply Forall_cons in Hp.
    destruct Hp as [[_ (z & v & Hr)] _]. unfold rows_of. simpl. rewrite Hr. discriminate.
Qed.

Lemma partition_all_aux_spec {A : Type} (fuel n : nat) (l : list A) :
  (length l <= fuel)%nat -> (1 <= n)%nat ->
  concat (partition_all_aux fuel n l) = l
  /\ Forall (fun g => g <> []) (partition_all_aux fuel n l).
Proof.
  intros Hf Hn. revert l Hf. induction fuel as [|fuel IH]; intros l Hf; simpl.
  - destruct l; simpl in Hf; [auto|lia].
  - destruct l as [|x l]; [auto|].
    destruct (IH (drop n (x :: l))) as [Hc Hall].
    { rewrite length_drop. simpl in *. lia. }
    split.
    + simpl. rewrite Hc. apply take_drop.
    + constructor; [|assumption]. destruct n; [lia|]. discriminate.
Qed.

Lemma partition_all_spec {A : Type} (n : nat) (l : list A) :
  (1 <= n)%nat ->
  concat (partition_all n l) = l /\ Forall (fun g => g <> []) (partition_all n l).
Proof. intros Hn. apply partition_all_aux_spec; [reflexivity|assumption]. Qed.

Lemma Forall_concat_inv {A : Type} (Q : A -> Prop) (ls : list (list A)) :
  Forall Q (concat ls) -> Forall (Forall Q) ls.
Proof.
  induction ls as [|l ls IH]; simpl; intros H; constructor.
  - apply Forall_app in H. tauto.
  - apply IH. apply Forall_app in H. tauto.
Qed.

Lemma rows_of_concat (gs : list (list DataFrame)) :
  rows_of (concat gs) = concat (map rows_of gs).
Proof.
  unfold rows_of. induction gs as [|g gs IH]; simpl; [reflexivity|].
  rewrite map_app, concat_app, IH. reflexivity.
Qed.

Lemma combine_round (se : nat) (fs : list DataFrame) :
  (1 <= se)%nat -> fs <> [] -> Forall (is_partial key arg) fs ->
  exists next,
    traverse (fun g => argminmax_chunk key arg m (_concat g)) (partition_all se fs) = Ok next
    /\ next <> [] /\ Forall (is_partial key arg) next
    /\ winner m (rows_of next) = winner m (rows_of fs).
Proof.
  intros Hse Hfs Hp.
  destruct (partition_all_spec se fs Hse) as [Hc Hall].
  set (gs := partition_all se fs) in *.
  assert (Hgp : Forall (Forall (is_partial key arg)) gs).
  { apply Forall_concat_inv. rewrite Hc. assumption. }
  exists (map (fun g => mkDF [key; arg] (option_rows (winner m (rows_of g)))) gs).
  split; [|split; [|split]].
  - apply traverse_map. rewrite Forall_forall. intros g Hg.
    apply combine_group.
    + rewrite Forall_forall in Hall. apply Hall. assumption.
    + rewrite Forall_forall in Hgp. apply Hgp. assumption.
  - destruct gs as [|g gs']; [|discriminate]. simpl in Hc. congruence.
  - rewrite Forall_map. rewrite Forall_forall. intros g Hg. simpl.
    apply winner_partial.
    + rewrite Forall_forall in Hall, Hgp. pose proof (Hall g Hg) as Hgne.
      pose proof (Hgp g Hg) as Hgpar.
      destruct g as [|f g]; [contradiction|]. apply Forall_cons in Hgpar.
      destruct Hgpar as [[_ (z & v & Hr)] _]. unfold rows_of. simpl. rewrite Hr. discriminate.
    + apply rows_of_partials. rewrite Forall_forall in Hgp. apply Hgp. assumption.
  - replace (rows_of fs) with (rows_of (concat gs)) by (rewrite Hc; reflexivity).
    rewrite rows_of_concat.
    rewrite <- (winner_of_winners m (map rows_of gs)).
    f_equal. unfold rows_of at 1. rewrite !map_map. reflexivity.
Qed.

Lemma combine_rounds_spec (fuel se : nat) (fs : list DataFrame) :
  (1 <= se)%nat -> fs <> [] -> Forall (is_partial key arg) fs ->
  exists combined,
    combine_rounds fuel se (argminmax_chunk key arg m) fs = Ok combined
    /\ combined <> [] /\ Forall (is_partial key arg) combined
    /\ winner m (rows_of combined) = winner m (rows_of fs).
Proof.
  intros Hse. revert fs. induction fuel as [|fuel IH]; intros fs Hfs Hp; simpl.
  - eauto.
  - case_bool_decide; [|eauto].
    destruct (combine_round se fs Hse Hfs Hp) as (next & -> & Hn & Hnp & Hw).
    simpl. destruct (IH next Hn Hnp) as (combined & -> & Hc & Hcp & Hw').
    exists combined. repeat split; try assumption. congruence.
Qed.

End Partials.

Section Reduce.

Context (m : method) (key arg : string) (Hne : key <> arg).

Lemma aggregate_partials (fs : list DataFrame) :
  fs <> [] -> Forall (is_partial key arg) fs ->
  exists w, winner m (rows_of fs) = Some w
            /\ argminmax_aggregate key arg m (_concat fs) = Ok (default CNull (w !! 1%nat)).
Proof.
  intros Hfs Hp. rewrite (concat_partials key arg) by assumption.
  destruct (col_index_partial key arg Hne) as [Hk Hv].
  unfold argminmax_aggregate, column_arg, getitem. simpl columns. rewrite Hk, Hv.
  rewrite (occurrences_partial key arg Hne). simpl.
  assert (Hrs : rows_of fs <> []).
  { destruct fs as [|f fs]; [contradiction|]. apply Forall_cons in Hp.
    destruct Hp as [[_ (z & v & Hr)] _]. unfold rows_of. simpl. rewrite Hr. discriminate. }
  pose proof (series_arg_winner m (rows_of fs) Hrs) as Hw.
  pose proof (winner_partial m key arg (rows_of fs) Hrs (rows_of_partials key arg fs Hp)) as Hpart.
  destruct (winner m (rows_of fs)) as [w|].
  - destruct Hw as (i & Hi & Hb & Hl & _). exists w. split; [reflexivity|].
    change (map (fun r : list cell => default CNull (r !! 0%nat)) (rows_of fs))
      with (map key0 (rows_of fs)).
    rewrite Hi. simpl. unfold iloc_scalar. rewrite length_map.
    rewrite bool_decide_true by lia. rewrite bool_decide_false by lia.
    rewrite list_lookup_fmap, Hl. reflexivity.
  - destruct Hpart as [_ (z & v & Hr)]. discriminate.
Qed.

Lemma chunk_partition (cols : list string) (ik iv : nat) (p : DataFrame) :
  col_index key cols = Some ik -> col_index arg cols = Some iv -> NoDup cols ->
  columns p = cols -> has_key key p ->
  argminmax_chunk key arg m p
  = Ok (mkDF [key; arg] (option_rows (winner m (map (proj ik iv) (rows p)))))
  /\ is_partial key arg (mkDF [key; arg] (option_rows (winner m (map (proj ik iv) (rows p))))).
Proof.
  intros Hk Hv Hnd Hc (keys & z & Hg & Hz). subst cols.
  unfold getitem in Hg. rewrite Hk in Hg. injection Hg as <-.
  apply list_elem_of_fmap in Hz. destruct Hz as (r & Hr & Hin).
  assert (Hrows : rows p <> []) by (intros E; rewrite E in Hin; inversion Hin).
  split; [apply argminmax_chunk_rows; auto using occurrences_NoDup|].
  split; [reflexivity|]. simpl.
  destruct (winner_is_Some m (map (proj ik iv) (rows p)) (proj ik iv r) z) as [w Hw].
  { apply list_elem_of_fmap. eauto. }
  { unfold key0, proj. simpl. congruence. }
  rewrite Hw. simpl. apply winner_elem in Hw. destruct Hw as [Hw (z' & Hz')].
  apply list_elem_of_fmap in Hw. destruct Hw as (r' & -> & _).
  unfold key0, proj in Hz'. simpl in Hz'. unfold proj. rewrite Hz'. eauto.
Qed.

Lemma reduction_value (se : nat) (d : DaskDataFrame) (ik iv : nat) :
  (2 <= se)%nat ->
  col_index key (columns (_meta d)) = Some ik ->
  col_index arg (columns (_meta d)) = Some iv ->
  NoDup (columns (_meta d)) ->
  Forall (fun p => columns p = columns (_meta d)) (partitions d) ->
  Forall (has_key key) (partitions d) ->
  partitions d <> [] ->
  exists w,
    winner m (map (proj ik iv) (rows (compute d))) = Some w
    /\ visit_ArgMinMax m arg key None se (Dask d) = Ok (default CNull (w !! 1%nat)).
Proof.
  intros Hse Hk Hv Hnd Hcols Hkeys Hps.
  set (chunked := map (fun p => mkDF [key; arg]
                     (option_rows (winner m (map (proj ik iv) (rows p))))) (partitions d)).
  assert (Hchunk : traverse (argminmax_chunk key arg m) (partitions d) = Ok chunked
                   /\ Forall (is_partial key arg) chunked).
  { unfold chunked. clear chunked Hps.
    induction (partitions d) as [|p ps IH]; simpl; [auto|].
    apply Forall_cons in Hcols, Hkeys. destruct Hcols as [Hc Hcols], Hkeys as [Hp Hkeys].
    destruct (chunk_partition _ ik iv p Hk Hv Hnd Hc Hp) as [-> Hpart].
    destruct (IH Hcols Hkeys) as [-> Hall]. simpl. auto. }
  destruct Hchunk as [Hchunk Hpart].
  assert (Hcne : chunked <> []).
  { unfold chunked. destruct (partitions d); [contradiction|discriminate]. }
  unfold visit_ArgMinMax, reduction. simpl.
  rewrite bool_decide_false by lia. rewrite Hchunk. simpl.
  destruct (combine_rounds_spec m key arg Hne (length chunked) se chunked)
    as (combined & -> & Hc & Hcp & Hw); [lia|assumption|assumption|].
  simpl. destruct (aggregate_partials combined Hc Hcp) as (w & Hwin & ->).
  exists w. split; [|reflexivity].
  rewrite <- Hwin, Hw. unfold rows_of, chunked. rewrite map_map. simpl.
  pose proof (winner_of_winners m (map (fun p => map (proj ik iv) (rows p)) (partitions d)))
    as Hww.
  rewrite map_map in Hww. rewrite Hww. f_equal.
  rewrite List.concat_map, map_map. reflexivity.
Qed.

End Reduce.

Lemma col_index_is_Some (c : string) (cols : list string) :
  c ∈ cols -> is_Some (col_index c cols).
Proof.
  induction cols as [|c' cs IH]; intros H; [inversion H|]. simpl.
  destruct (decide (c = c')); [eauto|].
  apply elem_of_cons in H. destruct H as [H|H]; [contradiction|].
  destruct (IH H) as [i ->]. simpl. eauto.
Qed.

Lemma has_key_compute (key : string) (d : DaskDataFrame) :
  Forall (fun p => columns p = columns (_meta d)) (partitions d) ->
  Forall (has_key key) (partitions d) -> partitions d <> [] ->
  has_key key (compute d).
Proof.
  intros Hcols Hkeys Hps. destruct (partitions d) as [|p ps] eqn:Hd; [contradiction|].
  apply Forall_cons in Hcols, Hkeys. destruct Hcols as [Hc _], Hkeys as [(keys & z & Hg & Hz) _].
  unfold has_key, getitem, compute in *. simpl. rewrite Hd. rewrite Hc in Hg.
  destruct (col_index key (columns (_meta d))) as [ik|]; [|discriminate].
  injection Hg as <-. eexists _, z. split; [reflexivity|].
  simpl. rewrite map_app. apply elem_of_app. left. assumption.
Qed.

(** C2, as amended.  The argmin/argmax reduction (chunk on every
    partition, combine on groups of partials, aggregate once) returns the
    value it returns with the table held as one partition, for every way
    of cutting the rows into partitions that each hold a row with a
    non-null key; on the rows of the example, argmax yields 2, the value
    at the greatest key 5, with one partition and with three. *)
Theorem argminmax_same_value_for_every_partitioning :
  (forall (m : method) (key arg : string) (split_every : nat) (d : DaskDataFrame),
      key <> arg -> (2 <= split_every)%nat ->
      NoDup (columns (_meta d)) -> arg ∈ columns (_meta d) ->
      Forall (fun p => columns p = columns (_meta d)) (partitions d) ->
      Forall (has_key key) (partitions d) ->
      partitions d <> [] ->
      visit_ArgMinMax m arg key None split_every (Dask d)
      = visit_ArgMinMax m arg key None split_every (Dask (as_one_partition d))
      /\ is_ok (visit_ArgMinMax m arg key None split_every (Dask d)) = true)
  /\ visit_ArgMinMax argmax "v" "k" None default_split_every (Dask example_one) = Ok (CInt 2)
  /\ visit_ArgMinMax argmax "v" "k" None default_split_every (Dask example_three) = Ok (CInt 2).
Proof.
  split; [|split; reflexivity].
  intros m key arg se d Hne Hse Hnd Harg Hcols Hkeys Hps.
  assert (Hk : is_Some (col_index key (columns (_meta d)))).
  { destruct (partitions d) as [|p ps]; [contradiction|].
    apply Forall_cons in Hcols, Hkeys.
    destruct Hcols as [Hc _], Hkeys as [(keys & z & Hg & _) _].
    unfold getitem in Hg. rewrite Hc in Hg.
    destruct (col_index key (columns (_meta d))); [eauto|discriminate]. }
  destruct Hk as [ik Hk]. destruct (col_index_is_Some _ _ Harg) as [iv Hv].
  destruct (reduction_value m key arg Hne se d ik iv Hse Hk Hv Hnd Hcols Hkeys Hps)
    as (w & Hw & Hd).
  destruct (reduction_value m key arg Hne se (as_one_partition d) ik iv Hse Hk Hv Hnd)
    as (w' & Hw' & Hd').
  { constructor; [reflexivity|constructor]. }
  { constructor; [|constructor]. apply has_key_compute; assumption. }
  { discriminate. }
  assert (Hrows : rows (compute (as_one_partition d)) = rows (compute d)).
  { unfold as_one_partition, compute. simpl. apply app_nil_r. }
  rewrite Hrows, Hw in Hw'. injection Hw' as <-.
  rewrite Hd, Hd'. split; reflexivity.
Qed.

Lemma argminmax_same_value_witness :
  visit_ArgMinMax argmin "v" "k" None 2 (Dask example_three)
  = visit_ArgMinMax argmin "v" "k" None 2 (Dask (as_one_partition example_three))
  /\ is_ok (visit_ArgMinMax argmin "v" "k" None 2 (Dask example_three)) = true.
Proof.
  apply (proj1 argminmax_same_value_for_every_partitioning).
  - discriminate.
  - lia.
  - decide_by_computation.
  - decide_by_computation.
  - repeat constructor.
  - repeat constructor; eexists _, _; (split; [reflexivity|]); left.
  - discriminate.
Defined.

(** C2, as stated, fails: the example does not yield 10. *)
Lemma argmax_example_is_not_ten :
  visit_ArgMinMax argmax "v" "k" None default_split_every (Dask example_one) <> Ok (CInt 10)
  /\ visit_ArgMinMax argmax "v" "k" None default_split_every (Dask example_three)
     <> Ok (CInt 10).
Proof. split; vm_compute; discriminate. Qed.

(** *** The value returned sits at an extremal key *)

Lemma better_irrefl (m : method) (z : Z) : better m z z = false.
Proof. destruct m; simpl; apply bool_decide_eq_false; lia. Qed.

Lemma better_displaced (m : method) (k bz z : Z) :
  better m k bz = true -> better m k z = false -> better m bz z = false.
Proof.
  destruct m; simpl; rewrite bool_decide_eq_true, !bool_decide_eq_false; lia.
Qed.

Lemma scan_extremal {P : Type} (m : method) (l : list (cell * P)) (b : option (Z * P))
    (z : Z) (p : P) :
  scan m l b = Some (z, p) ->
  (forall bz bp, b = Some (bz, bp) -> better m bz z = false)
  /\ (forall z' p', (CInt z', p') ∈ l -> better m z' z = false).
Proof.
  revert b. induction l as [|[[k|] q] l IH]; intros b H; simpl in H.
  - subst b. split.
    + intros bz bp [= -> ->]. apply better_irrefl.
    + intros z' p' Hin. inversion Hin.
  - destruct b as [[bz bp]|].
    + destruct (better m k bz) eqn:Hk.
      * destruct (IH _ H) as [Hb Hl]. specialize (Hb k q eq_refl). split.
        -- intros bz' bp' [= -> ->]. eapply better_displaced; eassumption.
        -- intros z' p' Hin. apply elem_of_cons in Hin. destruct Hin as [[= -> ->]|Hin];
             [assumption|eauto].
      * destruct (IH _ H) as [Hb Hl]. specialize (Hb bz bp eq_refl). split.
        -- intros bz' bp' [= -> ->]. assumption.
        -- intros z' p' Hin. apply elem_of_cons in Hin. destruct Hin as [[= -> ->]|Hin];
             [|eauto]. eapply not_better_trans; eassumption.
    + destruct (IH _ H) as [Hb Hl]. specialize (Hb k q eq_refl). split.
      * intros bz bp [=].
      * intros z' p' Hin. apply elem_of_cons in Hin. destruct Hin as [[= -> ->]|Hin];
          [assumption|eauto].
  - destruct (IH _ H) as [Hb Hl]. split; [assumption|].
    intros z' p' Hin. apply elem_of_cons in Hin. destruct Hin as [[=]|Hin]. eauto.
Qed.

Lemma winner_extremal (m : method) (rs : list (list cell)) (w : list cell) (z : Z) :
  winner m rs = Some w -> key0 w = CInt z ->
  forall r z', r ∈ rs -> key0 r = CInt z' -> better m z' z = false.
Proof.
  unfold winner. intros H Hz r z' Hr Hz'.
  destruct (scan m (keyed rs) None) as [[zw w']|] eqn:Hs; simpl in H; [|discriminate].
  injection H as ->.
  pose proof Hs as Hin. apply scan_elem in Hin. destruct Hin as [Hin|Hin]; [discriminate|].
  apply keyed_elem in Hin. destruct Hin as [_ Hzw]. fold (key0 w) in Hzw.
  rewrite Hz in Hzw. injection Hzw as ->.
  apply scan_extremal in Hs. destruct Hs as [_ Hl]. apply (Hl z' r).
  unfold keyed. apply list_elem_of_fmap. exists r. split; [|assumption].
  fold (key0 r). rewrite Hz'. reflexivity.
Qed.

(** The reduction returns the value of a row of the table whose key is
    extremal among the keys that are not null. *)
Lemma argminmax_value_is_extremal (m : method) (key arg : string) (se : nat)
    (d : DaskDataFrame) (ik iv : nat) :
  key <> arg -> (2 <= se)%nat ->
  col_index key (columns (_meta d)) = Some ik ->
  col_index arg (columns (_meta d)) = Some iv ->
  NoDup (columns (_meta d)) ->
  Forall (fun p => columns p = columns (_meta d)) (partitions d) ->
  Forall (has_key key) (partitions d) ->
  partitions d <> [] ->
  exists r z,
    r ∈ rows (compute d)
    /\ default CNull (r !! ik) = CInt z
    /\ visit_ArgMinMax m arg key None se (Dask d) = Ok (default CNull (r !! iv))
    /\ forall r' z', r' ∈ rows (compute d) -> default CNull (r' !! ik) = CInt z' ->
                     better m z' z = false.
Proof.
  intros Hne Hse Hk Hv Hnd Hcols Hkeys Hps.
  destruct (reduction_value m key arg Hne se d ik iv Hse Hk Hv Hnd Hcols Hkeys Hps)
    as (w & Hw & Hd).
  pose proof (winner_elem m _ w Hw) as [Hin (z & Hz)].
  apply list_elem_of_fmap in Hin. destruct Hin as (r & -> & Hr).
  exists r, z. split; [assumption|]. split; [exact Hz|]. split; [exact Hd|].
  intros r' z' Hr' Hz'.
  apply (winner_extremal m _ _ z Hw Hz (proj ik iv r') z').
  - apply list_elem_of_fmap. eauto.
  - exact Hz'.
Qed.

(** *** The combine rounds run to the end *)

Lemma traverse_length {A B : Type} (f : A -> result B) (l : list A) (k : list B) :
  traverse f l = Ok k -> length k = length l.
Proof.
  revert k. induction l as [|x l IH]; intros k H; simpl in H.
  - injection H as <-. reflexivity.
  - destruct (f x) as [y|e]; simpl in H; [|discriminate].
    destruct (traverse f l) as [ys|e]; simpl in H; [|discriminate].
    injection H as <-. simpl. rewrite (IH ys eq_refl). reflexivity.
Qed.

Lemma partition_all_aux_length {A : Type} (fuel n : nat) (l : list A) :
  (2 <= n)%nat ->
  (length (partition_all_aux fuel n l) <= length l)%nat
  /\ ((2 <= length l)%nat -> (length (partition_all_aux fuel n l) < length l)%nat).
Proof.
  intros Hn. revert l. induction fuel as [|fuel IH]; intros l; simpl.
  - lia.
  - destruct l as [|x l]; simpl; [lia|].
    destruct (IH (drop n (x :: l))) as [Hle _].
    rewrite length_drop in Hle. simpl in Hle. lia.
Qed.

(** With as much fuel as partials, the loop stops because its condition
    fails: at most [split_every] partials are left. *)
Lemma combine_rounds_done (fuel se : nat) (combine : DataFrame -> result DataFrame)
    (partials out : list DataFrame) :
  (2 <= se)%nat -> (length partials <= fuel)%nat ->
  combine_rounds fuel se combine partials = Ok out ->
  (length out <= se)%nat.
Proof.
  intros Hse. revert partials. induction fuel as [|fuel IH]; intros partials Hf H; simpl in H.
  - injection H as <-. lia.
  - case_bool_decide as Hlt.
    + destruct (traverse _ (partition_all se partials)) as [next|e] eqn:Hn;
        simpl in H; [|discriminate].
      apply (IH next); [|exact H].
      apply traverse_length in Hn. rewrite Hn. unfold partition_all.
      destruct (partition_all_aux_length (length partials) se partials Hse) as [_ Hlt'].
      lia.
    + injection H as <-. lia.
Qed.

(** *** What the hypotheses of the reduction theorem keep out *)

(** A partition without rows makes the chunk step fail. *)
Example argmax_empty_partition_raises :
  visit_ArgMinMax argmax "v" "k" None default_split_every
    (Dask (mkDDF example_meta [mkDF ["k"; "v"] example_rows; mkDF ["k"; "v"] []]))
  = Raise (ValueError "attempt to get argmax of an empty sequence").
Proof. reflexivity. Qed.

(** Partitions whose keys are all null give empty partials; a combine
    group made of such partials fails although other partitions hold a
    key. *)
Example argmax_null_groups_raise :
  let nulls := mkDF ["k"; "v"] [[CNull; CInt 7]] in
  let d := mkDDF example_meta [nulls; nulls; nulls; mkDF ["k"; "v"] example_rows] in
  visit_ArgMinMax argmax "v" "k" None 2 (Dask d)
  = Raise (ValueError "attempt to get argmax of an empty sequence")
  /\ visit_ArgMinMax argmax "v" "k" None 2 (Dask (as_one_partition d)) = Ok (CInt 2).
Proof. split; reflexivity. Qed.

(** With the key column as value column, the partials carry the label
    twice and the aggregate step finds no series to take the argmax of. *)
Example argmax_of_key_itself_raises :
  visit_ArgMinMax argmax "k" "k" None default_split_every (Dask example_one)
  = Raise (AttributeError "'DataFrame' object has no attribute 'argmax'").
Proof. reflexivity. Qed.

(** ** Grouped aggregation *)

Import Aggregate.

Section AggregateProofs.

Context (from_ibis : ibis_dtype -> pandas_dtype).
Context (asframe : list (string * cell) -> TypedFrame).

Lemma groupby_ok (parent : DaskDataFrame) (names : list string) :
  Forall (fun n => n ∈ columns (_meta parent)) names ->
  exists positions, groupby parent names = Ok (mkGroupBy (compute parent) positions).
Proof.
  intros H. unfold groupby.
  assert (Ht : exists positions,
             traverse (fun name => match col_index name (columns (_meta parent)) with
                                   | Some i => Ok i
                                   | None => Raise (KeyError name)
                                   end) names = Ok positions).
  { induction H as [|n names Hn _ [positions IH]]; simpl; [eauto|].
    destruct (col_index_is_Some _ _ Hn) as [i ->]. simpl. rewrite IH. simpl. eauto. }
  destruct Ht as [positions ->]. simpl. eauto.
Qed.

(** Whatever the data, a measure carries the template it was given. *)
Lemma apply_meta (g : GroupBy) (fn : Reduction.table -> result cell) (meta : SeriesMeta)
    (s : Measure) :
  apply g fn meta = Ok s -> measure_meta s = meta.
Proof.
  unfold apply. destruct (traverse _ (group_keys g)) as [vs|e]; simpl; [|discriminate].
  intros [= <-]. reflexivity.
Qed.

Lemma apply_empty (positions : list nat) (cols : list string)
    (fn : Reduction.table -> result cell) (meta : SeriesMeta) :
  apply (mkGroupBy (mkDF cols []) positions) fn meta = Ok (mkMeasure meta []).
Proof. reflexivity. Qed.

Lemma measures_schema (g : GroupBy) (groups : list Group) (metrics : list Metric)
    (measures : list (string * Measure)) :
  traverse (fun m => s ← apply g (m_fn m) (template from_ibis groups m); Ok (m_name m, s))
           metrics = Ok measures ->
  map (fun nm : string * Measure => (fst nm, s_dtype (measure_meta (snd nm)))) measures
  = declared_schema from_ibis metrics
  /\ Forall (fun nm : string * Measure =>
               s_index_names (measure_meta (snd nm)) = map g_out groups) measures.
Proof.
  revert measures. induction metrics as [|m metrics IH]; intros measures H; simpl in H.
  - injection H as <-. split; [reflexivity|constructor].
  - destruct (apply g (m_fn m) (template from_ibis groups m)) as [s|e] eqn:Hs;
      simpl in H; [|discriminate].
    destruct (traverse _ metrics) as [rest|e]; simpl in H; [|discriminate].
    injection H as <-. destruct (IH rest eq_refl) as [IH1 IH2]. simpl.
    apply apply_meta in Hs.
    split; [rewrite IH1, Hs; reflexivity|]. constructor; [simpl; rewrite Hs; reflexivity|assumption].
Qed.

Lemma side_by_side_empty (ms : list Measure) :
  Forall (fun m => measure_values m = []) ms -> side_by_side ms = [].
Proof.
  induction 1 as [|m ms Hm _ IH]; simpl; [reflexivity|].
  rewrite Hm. destruct ms; reflexivity.
Qed.

Lemma measures_of_empty_table (positions : list nat) (cols : list string)
    (groups : list Group) (metrics : list Metric) :
  exists measures,
    traverse (fun m => s ← apply (mkGroupBy (mkDF cols []) positions) (m_fn m)
                               (template from_ibis groups m);
                       Ok (m_name m, s)) metrics = Ok measures
    /\ Forall (fun m => measure_values m = []) (map snd measures)
    /\ length measures = length metrics.
Proof.
  induction metrics as [|m metrics (measures & IH & Hv & Hl)]; cbn [traverse].
  - exists []. repeat split. constructor.
  - rewrite apply_empty. cbn [mbind result_bind]. rewrite IH. cbn [mbind result_bind].
    eexists. split; [reflexivity|]. simpl. split; [constructor; [reflexivity|assumption]|].
    rewrite Hl. reflexivity.
Qed.

Lemma rename_kept (renames : list (string * string)) (labels : list string)
    (sch : list (string * pandas_dtype)) :
  map fst sch = labels ->
  Forall (fun l => rename_label renames l = l) labels ->
  map (fun c : string * pandas_dtype => (rename_label renames (fst c), snd c)) sch = sch.
Proof.
  intros <- H. induction sch as [|[l t] sch IH]; simpl in *; [reflexivity|].
  apply Forall_cons in H. destruct H as [-> H]. rewrite (IH H). reflexivity.
Qed.

Lemma declared_labels (metrics : list Metric) :
  map fst (declared_schema from_ibis metrics) = map m_name metrics.
Proof. unfold declared_schema. rewrite map_map. reflexivity. Qed.

(** The schema of a grouped aggregation is the one of the templates,
    whatever the rows of the parent. *)
Lemma grouped_schema (parent : DaskDataFrame) (groups : list Group)
    (metrics : list Metric) (r : TypedFrame) :
  groups <> [] -> labels_kept groups metrics ->
  visit_PandasAggregate from_ibis asframe parent groups metrics = Ok r ->
  schema r = map (fun g => (g_out g, np_object)) groups ++ declared_schema from_ibis metrics.
Proof.
  intros Hg Hkept H. unfold visit_PandasAggregate in H.
  destruct groups as [|g0 gs]; [contradiction|].
  set (groups := g0 :: gs) in *.
  destruct (groupby parent (map g_name groups)) as [grouped|e];
    cbn [mbind result_bind] in H; [|discriminate].
  destruct (traverse _ metrics) as [measures|e] eqn:Hm;
    cbn [mbind result_bind] in H; [|discriminate].
  apply measures_schema in Hm. destruct Hm as [Hs Hi].
  unfold concat_axis1 in H.
  destruct measures as [|[n m] rest]; cbn [mbind result_bind] in H; [discriminate|].
  injection H as <-. unfold rename, reset_index. cbn [schema index_names value_schema].
  change ((n, s_dtype (measure_meta m))
            :: map (fun nm : string * Measure => (fst nm, s_dtype (measure_meta (snd nm)))) rest)
    with (map (fun nm : string * Measure => (fst nm, s_dtype (measure_meta (snd nm))))
              ((n, m) :: rest)).
  change ((g_name g0, g_out g0) :: map (fun g : Group => (g_name g, g_out g)) gs)
    with (map (fun g : Group => (g_name g, g_out g)) groups).
  rewrite Hs. apply Forall_cons in Hi. destruct Hi as [Hi _]. cbn [snd] in Hi. rewrite Hi.
  rewrite map_map.
  apply (rename_kept _ (output_labels groups metrics)); [|exact Hkept].
  unfold output_labels. rewrite map_app, !map_map, declared_labels. reflexivity.
Qed.

(** C3, as amended.  A grouped aggregation with at least one metric over
    a table without rows raises nothing and returns a frame without rows
    whose columns are the group keys followed by exactly the declared
    metrics with their declared types; that schema comes from the
    templates, so it is the same whatever rows the parent holds. *)
Theorem grouped_aggregate_of_empty_table
    (parent : DaskDataFrame) (groups : list Group) (metrics : list Metric) :
  groups <> [] -> metrics <> [] ->
  rows (compute parent) = [] ->
  Forall (fun g => g_name g ∈ columns (_meta parent)) groups ->
  labels_kept groups metrics ->
  exists r,
    visit_PandasAggregate from_ibis asframe parent groups metrics = Ok r
    /\ data r = []
    /\ map fst (schema r) = output_labels groups metrics
    /\ drop (length groups) (schema r) = declared_schema from_ibis metrics
    /\ (forall parent' r',
          visit_PandasAggregate from_ibis asframe parent' groups metrics = Ok r' ->
          schema r' = schema r).
Proof.
  intros Hg Hm Hrows Hcols Hkept.
  assert (Hex : exists r, visit_PandasAggregate from_ibis asframe parent groups metrics = Ok r
                          /\ data r = []).
  { unfold visit_PandasAggregate. destruct groups as [|g0 gs]; [contradiction|].
    set (groups := g0 :: gs) in *.
    destruct (groupby_ok parent (map g_name groups)) as [positions ->].
    { rewrite Forall_map. exact Hcols. }
    cbn [mbind result_bind].
    assert (Hc : compute parent = mkDF (columns (_meta parent)) []).
    { unfold compute in *. simpl in Hrows. rewrite Hrows. reflexivity. }
    rewrite Hc.
    destruct (measures_of_empty_table positions (columns (_meta parent)) groups metrics)
      as (measures & -> & Hv & Hl).
    cbn [mbind result_bind]. unfold concat_axis1.
    destruct measures as [|[n m] rest].
    { destruct metrics; [contradiction|discriminate]. }
    cbn [mbind result_bind]. eexists. split; [reflexivity|].
    unfold rename, reset_index. cbn [data entries].
    rewrite (side_by_side_empty _ Hv). reflexivity. }
  destruct Hex as (r & Hr & Hd). exists r.
  pose proof (grouped_schema parent groups metrics r Hg Hkept Hr) as Hs.
  split; [exact Hr|]. split; [exact Hd|]. split; [|split].
  - rewrite Hs. unfold output_labels. rewrite map_app, map_map, declared_labels. reflexivity.
  - rewrite Hs. rewrite drop_app_length'; [reflexivity|]. symmetry. apply length_map.
  - intros parent' r' Hr'. rewrite Hs.
    apply (grouped_schema parent' groups metrics r' Hg Hkept Hr').
Qed.

End AggregateProofs.

(** The aggregation of the example of section 8 of the spec: metrics count
    and total over a table without rows, grouped by g. *)
Lemma grouped_aggregate_of_empty_table_witness :
  let parent := mkDDF (mkDF ["g"; "x"] []) [mkDF ["g"; "x"] []] in
  let groups := [mkGroup "g" "g"] in
  let metrics := [mkMetric "count" Int64 (fun _ => Ok (CInt 0));
                  mkMetric "total" Float64 (fun _ => Ok CNull)] in
  exists r,
    visit_PandasAggregate numpy_dtype asframe_row parent groups metrics = Ok r
    /\ data r = []
    /\ map fst (schema r) = ["g"; "count"; "total"]
    /\ drop 1 (schema r) = [("count", np_int64); ("total", np_float64)]
    /\ (forall parent' r',
          visit_PandasAggregate numpy_dtype asframe_row parent' groups metrics = Ok r' ->
          schema r' = schema r).
Proof.
  intros parent groups metrics.
  apply (grouped_aggregate_of_empty_table numpy_dtype asframe_row parent groups metrics).
  - discriminate.
  - discriminate.
  - reflexivity.
  - repeat constructor.
  - repeat constructor.
Defined.

(** C3, as stated, fails: the result has the group key as a third column. *)
Lemma grouped_aggregate_keeps_group_columns :
  let parent := mkDDF (mkDF ["g"; "x"] []) [mkDF ["g"; "x"] []] in
  let groups := [mkGroup "g" "g"] in
  let metrics := [mkMetric "count" Int64 (fun _ => Ok (CInt 0));
                  mkMetric "total" Float64 (fun _ => Ok CNull)] in
  exists r,
    visit_PandasAggregate numpy_dtype asframe_row parent groups metrics = Ok r
    /\ schema r = [("g", np_object); ("count", np_int64); ("total", np_float64)]
    /\ schema r <> declared_schema numpy_dtype metrics.
Proof. intros parent groups metrics. eexists. split; [reflexivity|]. split; [reflexivity|discriminate]. Qed.

(** Without metrics there is nothing to put side by side. *)
Example grouped_aggregate_without_metrics_raises :
  visit_PandasAggregate numpy_dtype asframe_row
    (mkDDF (mkDF ["g"; "x"] []) [mkDF ["g"; "x"] []]) [mkGroup "g" "g"] []
  = Raise (ValueError "No objects to concatenate").
Proof. reflexivity. Qed.

(** ** Sort *)

Import Sort.

Lemma cell_cmp_antisym asc na a b : cell_cmp asc na b a = CompOpp (cell_cmp asc na a b).
Proof.
  destruct a as [x|], b as [y|], na, asc; simpl; try reflexivity; apply Z.compare_antisym.
Qed.

Lemma rows_cmp_antisym by_ na r1 r2 :
  rows_cmp by_ na r2 r1 = CompOpp (rows_cmp by_ na r1 r2).
Proof.
  induction by_ as [|[i asc] rest IH]; simpl; [reflexivity|].
  rewrite (cell_cmp_antisym asc na (default CNull (r1 !! i)) (default CNull (r2 !! i))).
  destruct (cell_cmp asc na (default CNull (r1 !! i)) (default CNull (r2 !! i)));
    simpl; auto.
Qed.

#[local] Instance row_le_total by_ na : Total (row_le by_ na).
Proof.
  intros r1 r2. unfold row_le. rewrite (rows_cmp_antisym by_ na r1 r2).
  destruct (rows_cmp by_ na r1 r2); simpl; [left|left|right]; discriminate.
Qed.

Lemma cell_cmp_Eq asc na a b c :
  cell_cmp asc na a b = Eq -> cell_cmp asc na a c = cell_cmp asc na b c.
Proof.
  destruct a as [x|], b as [y|], c as [z|], na, asc; simpl; try discriminate; try reflexivity;
    intros H; apply Z.compare_eq in H; subst; reflexivity.
Qed.

Lemma cell_cmp_Lt asc na a b c :
  cell_cmp asc na a b = Lt -> cell_cmp asc na b c <> Gt -> cell_cmp asc na a c = Lt.
Proof.
  destruct a as [x|], b as [y|], c as [z|], na, asc; simpl; try discriminate; try reflexivity;
    try congruence; rewrite ?Z.compare_lt_iff, ?Z.compare_gt_iff; intros H1 H2;
    try (exfalso; apply H2; reflexivity);
    destruct (Z.compare_spec y z); destruct (Z.compare_spec z y); try congruence; lia.
Qed.

#[local] Instance row_le_trans by_ na : Transitive (row_le by_ na).
Proof.
  intros r1 r2 r3. unfold row_le.
  induction by_ as [|[i asc] rest IH]; simpl; [congruence|].
  destruct (cell_cmp asc na (default CNull (r1 !! i)) (default CNull (r2 !! i))) eqn:H12.
  - rewrite (cell_cmp_Eq _ _ _ _ (default CNull (r3 !! i)) H12).
    destruct (cell_cmp asc na (default CNull (r2 !! i)) (default CNull (r3 !! i)));
      auto; congruence.
  - intros _ H23.
    rewrite (cell_cmp_Lt _ _ _ _ (default CNull (r3 !! i)) H12); [discriminate|].
    destruct (cell_cmp asc na (default CNull (r2 !! i)) (default CNull (r3 !! i)));
      congruence.
  - congruence.
Qed.














(** ** Correlation and covariance *)

Import Stats.

(** C5.  With [how = "pop"] the rules for correlation and covariance raise
    [UnsupportedOperationError] when the node is translated, so no closure
    and no number is ever returned; with the sample convention the closure
    is returned. *)
Theorem population_convention_is_unsupported
    (left right : string) (where_col : option string) :
  visit_Correlation left right where_col "pop"
  = Raise (UnsupportedOperationError "Dask doesn't support `corr` with `how='pop'`")
  /\ visit_Covariance left right where_col "pop"
     = Raise (UnsupportedOperationError "Dask doesn't support `cov` with `how='pop'`")
  /\ visit_Correlation left right where_col "sample" = Ok (CorrAgg left right where_col)
  /\ visit_Covariance left right where_col "sample" = Ok (CovAgg left right where_col).
Proof. repeat split. Qed.

(** Every convention but the population one is let through. *)
Lemma other_conventions_accepted (left right : string) (where_col : option string)
    (how : string) :
  how <> "pop" ->
  visit_Correlation left right where_col how = Ok (CorrAgg left right where_col)
  /\ visit_Covariance left right where_col how = Ok (CovAgg left right where_col).
Proof.
  intros H. unfold visit_Correlation, visit_Covariance.
  destruct (decide (how = "pop")); [contradiction|]. auto.
Qed.

(** ** Table scans *)

Import Relational.

(** C8.  A table scan whose name is missing from the dictionary of the
    backend raises [UnboundExpressionError] when the node is translated:
    an exception of ibis for a wrong use of the backend, in place of the
    built-in [KeyError] of the lookup; a registered name yields the
    registered table. *)
Theorem unbound_table_is_a_usage_error (name : string) (source : Backend) :
  (dictionary source !! name = None ->
   exists msg,
     visit_DatabaseTable name source = Raise (UnboundExpressionError msg)
     /\ is_ibis_exception (UnboundExpressionError msg) = true
     /\ UnboundExpressionError msg <> KeyError name)
  /\ (forall t, dictionary source !! name = Some t -> visit_DatabaseTable name source = Ok t).
Proof.
  unfold visit_DatabaseTable. split.
  - intros ->. eexists. repeat split. discriminate.
  - intros t ->. reflexivity.
Qed.

Lemma unbound_table_is_a_usage_error_witness :
  let t := mkDDF (mkDF ["a"] []) [mkDF ["a"] [[CInt 1]]] in
  let source := mkBackend "dask" {[ "t" := t ]} in
  (exists msg,
      visit_DatabaseTable "u" source = Raise (UnboundExpressionError msg)
      /\ is_ibis_exception (UnboundExpressionError msg) = true
      /\ UnboundExpressionError msg <> KeyError "u")
  /\ visit_DatabaseTable "t" source = Ok t.
Proof.
  intros t source. split.
  - apply (proj1 (unbound_table_is_a_usage_error "u" source)). reflexivity.
  - apply (proj2 (unbound_table_is_a_usage_error "t" source)). reflexivity.
Defined.

(** ** Projection of scalars *)

Lemma replicate_rows (n : nat) (df : DaskDataFrame) (r : list cell) :
  rows (compute df) = [r] ->
  concat (map rows (concat (map partitions (replicate n df)))) = replicate n r.
Proof.
  unfold compute. simpl. intros H. induction n as [|n IH]; simpl; [reflexivity|].
  rewrite map_app, concat_app, H, IH. reflexivity.
Qed.

(** Over a parent with rows the scalar row is repeated once per row. *)
Lemma project_scalars_broadcast (parent df : DaskDataFrame) (r : list cell) :
  rows (compute df) = [r] -> dask_len parent <> 0%nat ->
  exists result,
    visit_Project parent (df, true) = Ok result
    /\ rows (compute result) = replicate (dask_len parent) r.
Proof.
  intros Hr Hn. unfold visit_Project. simpl.
  assert (Hlen : dask_len df = 1%nat) by (unfold dask_len, len; rewrite Hr; reflexivity).
  rewrite Hlen.
  destruct (dask_len parent) as [|[|n]] eqn:Hp; [contradiction| |]; simpl.
  - exists df. split; [reflexivity|]. assumption.
  - eexists. split; [reflexivity|]. simpl.
    pose proof (replicate_rows (S (S n)) df r Hr) as H. simpl in H. exact H.
Qed.

(** C10 at a parent without rows: the list handed to [dd.concat] is empty
    and the rule raises instead of returning a frame without rows. *)
Theorem project_scalars_over_empty_parent_raises :
  let parent := mkDDF (mkDF ["a"] []) [mkDF ["a"] []] in
  let df := scalar_frame ["x"] [CInt 1] in
  dask_len parent = 0%nat /\ dask_len df = 1%nat
  /\ visit_Project parent (df, true) = Raise (ValueError "No objects to concatenate").
Proof. repeat split. Qed.

(** ** Materializing the result *)

Import Execute.

Section ExecuteProofs.

Context {Schema : Type} (convert_table : DataFrame -> Schema -> result DataFrame).

(** C6, as amended.  For a scalar expression, [execute] returns the cell
    at row 0, column 0 of the converted result as soon as that cell
    exists, whatever the number of rows and columns, and fails with an
    [IndexError] when the result has no row or its first row no cell. *)
Theorem scalar_execute_returns_first_cell
    (node_schema : Schema) (d : DaskDataFrame) (converted : DataFrame) :
  convert_table (compute d) node_schema = Ok converted ->
  match rows converted with
  | (c :: _) :: _ =>
      execute Schema convert_table (Value Scalar) node_schema (CompiledDask d)
      = Ok (OutScalar c)
  | _ =>
      exists msg,
        execute Schema convert_table (Value Scalar) node_schema (CompiledDask d)
        = Raise (IndexError msg)
  end.
Proof.
  intros H. unfold execute. simpl. rewrite H. simpl. unfold iat.
  destruct (rows converted) as [|[|c r] rs]; simpl; eauto.
Qed.


End ExecuteProofs.

Lemma scalar_execute_returns_first_cell_witness :
  let d := mkDDF (mkDF ["x"] []) [mkDF ["x"] [[CInt 7]]] in
  execute (list string) convert_table_total (Value Scalar) ["x"] (CompiledDask d)
  = Ok (OutScalar (CInt 7)).
Proof.
  intros d.
  apply (scalar_execute_returns_first_cell convert_table_total ["x"] d (compute d)).
  reflexivity.
Defined.

(** C6, as stated, fails: a result of two rows is not refused. *)
Lemma scalar_execute_accepts_two_rows :
  let d := mkDDF (mkDF ["x"] []) [mkDF ["x"] [[CInt 7]]; mkDF ["x"] [[CInt 8]]] in
  len (compute d) = 2%nat
  /\ execute (list string) convert_table_total (Value Scalar) ["x"] (CompiledDask d)
     = Ok (OutScalar (CInt 7)).
Proof. split; reflexivity. Qed.


Import Relational.

(** ** Filter *)

Lemma tabulate_ext (f g : nat -> bool) (i n : nat) :
  (forall k, f k = g k) -> tabulate f i n = tabulate g i n.
Proof.
  intros H. revert i. induction n as [|n IH]; intros i; simpl; [reflexivity|].
  rewrite H, IH. reflexivity.
Qed.

Lemma tabulate_partitions_ext (f g : nat -> nat -> bool) (j : nat) (ps : list DataFrame) :
  (forall a b, f a b = g a b) -> tabulate_partitions f j ps = tabulate_partitions g j ps.
Proof.
  intros H. revert j. induction ps as [|p ps IH]; intros j; simpl; [reflexivity|].
  rewrite IH. f_equal. apply tabulate_ext. intros k. apply H.
Qed.

Lemma length_tabulate (f : nat -> bool) (i n : nat) : length (tabulate f i n) = n.
Proof. revert i. induction n as [|n IH]; intros i; simpl; [reflexivity|]. rewrite IH. reflexivity. Qed.

Lemma length_tabulate_partitions (f : nat -> nat -> bool) (j : nat) (ps : list DataFrame) :
  length (tabulate_partitions f j ps) = length ps.
Proof. revert j. induction ps as [|p ps IH]; intros j; simpl; [reflexivity|]. rewrite IH. reflexivity. Qed.

Lemma tabulate_lookup (pre m : list bool) :
  m = tabulate (fun i => default false ((pre ++ m) !! i)) (length pre) (length m).
Proof.
  revert pre. induction m as [|b m IH]; intros pre; simpl; [reflexivity|].
  rewrite lookup_app_r by lia. rewrite Nat.sub_diag. simpl. f_equal.
  specialize (IH (pre ++ [b])). rewrite length_app in IH. simpl in IH.
  rewrite Nat.add_1_r in IH. rewrite <- app_assoc in IH. exact IH.
Qed.

Lemma tabulate_partitions_lookup (pre pred : list (list bool)) (ps : list DataFrame) :
  Forall2 (fun p m => length m = len p) ps pred ->
  pred = tabulate_partitions (cell_at (pre ++ pred)) (length pre) ps.
Proof.
  intros H. revert pre. induction H as [|p m ps pred Hl _ IH]; intros pre; simpl;
    [reflexivity|].
  f_equal.
  - rewrite <- Hl. rewrite (tabulate_lookup [] m) at 1. simpl.
    apply tabulate_ext. intros k. unfold cell_at.
    rewrite lookup_app_r by lia. rewrite Nat.sub_diag. reflexivity.
  - specialize (IH (pre ++ [m])). rewrite length_app in IH. simpl in IH.
    rewrite Nat.add_1_r in IH. rewrite <- app_assoc in IH. exact IH.
Qed.

Lemma zip_with_tabulate (f g : nat -> bool) (i n : nat) :
  zip_with andb (tabulate f i n) (tabulate g i n) = tabulate (fun k => f k && g k) i n.
Proof.
  revert i. induction n as [|n IH]; intros i; simpl; [reflexivity|]. rewrite IH. reflexivity.
Qed.

Lemma and_tabulated (f g : nat -> nat -> bool) (j : nat) (ps : list DataFrame) :
  and_ (tabulate_partitions f j ps) (tabulate_partitions g j ps)
  = Ok (tabulate_partitions (fun a b => f a b && g a b) j ps).
Proof.
  unfold and_, zip_exact. rewrite !length_tabulate_partitions.
  destruct (decide (length ps = length ps)) as [e|]; [|contradiction]. simpl. clear e.
  revert j. induction ps as [|p ps IH]; intros j; simpl; [reflexivity|].
  rewrite !length_tabulate. destruct (decide (len p = len p)); [|contradiction]. simpl.
  rewrite IH. simpl. rewrite zip_with_tabulate. reflexivity.
Qed.

Lemma reduce_tabulated (preds : list (list (list bool))) (f : nat -> nat -> bool)
    (ps : list DataFrame) :
  Forall (fun pred => Forall2 (fun p m => length m = len p) ps pred) preds ->
  reduce_from and_ (tabulate_partitions f 0 ps) preds
  = Ok (tabulate_partitions (fun j i => f j i && mask_at preds j i) 0 ps).
Proof.
  intros H. revert f. induction H as [|pred preds Hp _ IH]; intros f; simpl.
  - f_equal. apply tabulate_partitions_ext. intros a b. rewrite andb_true_r. reflexivity.
  - rewrite (tabulate_partitions_lookup [] pred ps Hp) at 1. simpl.
    rewrite and_tabulated. simpl. rewrite IH. f_equal.
    apply tabulate_partitions_ext. intros a b. rewrite andb_assoc. reflexivity.
Qed.

Lemma mask_rows_tabulate (f : nat -> bool) (i : nat) (rs : list (list cell)) :
  mask_rows rs (tabulate f i (length rs)) = keep_from f i rs.
Proof.
  revert i. induction rs as [|r rs IH]; intros i; simpl; [reflexivity|].
  rewrite IH. reflexivity.
Qed.

Lemma getitem_mask_tabulate (p : DataFrame) (f : nat -> bool) :
  getitem_mask p (tabulate f 0 (len p)) = Ok (mkDF (columns p) (keep_from f 0 (rows p))).
Proof.
  unfold getitem_mask. rewrite length_tabulate.
  destruct (decide (len p = len p)); [|contradiction].
  unfold len. rewrite mask_rows_tabulate. reflexivity.
Qed.

Lemma loc_tabulated (d : DaskDataFrame) (f : nat -> nat -> bool) :
  loc d (tabulate_partitions f 0 (partitions d))
  = Ok (mkDDF (_meta d) (filter_partitions f 0 (partitions d))).
Proof.
  unfold loc, zip_exact. rewrite length_tabulate_partitions.
  destruct (decide (length (partitions d) = length (partitions d))); [|contradiction].
  simpl.
  assert (H : forall j ps,
             traverse (fun pm : DataFrame * list bool => getitem_mask (fst pm) (snd pm))
                      (zip_with (fun p m => (p, m)) ps (tabulate_partitions f j ps))
             = Ok (filter_partitions f j ps)).
  { intros j ps. revert j. induction ps as [|p ps IH]; intros j; simpl; [reflexivity|].
    rewrite getitem_mask_tabulate. simpl. rewrite IH. reflexivity. }
  rewrite H. reflexivity.
Qed.

(** C7.  Without predicates the filter returns the parent as it is; with
    predicates, each partition keeps the rows at which every predicate is
    true, the conjunction serving as the boolean mask. *)
Theorem filter_is_the_conjunction_mask
    (parent : DaskDataFrame) (predicates : list (list (list bool))) :
  visit_Filter parent [] = Ok parent
  /\ (predicates <> [] -> Forall (along parent) predicates ->
      visit_Filter parent predicates
      = Ok (mkDDF (_meta parent)
              (filter_partitions (mask_at predicates) 0 (partitions parent)))).
Proof.
  split; [reflexivity|]. intros Hne Hal.
  destruct predicates as [|p ps]; [contradiction|]. clear Hne.
  apply Forall_cons in Hal. destruct Hal as [Hp Hps]. unfold visit_Filter.
  rewrite (tabulate_partitions_lookup [] p (partitions parent) Hp) at 1. simpl.
  rewrite (reduce_tabulated ps _ _ Hps). simpl.
  rewrite loc_tabulated. reflexivity.
Qed.

Lemma filter_is_the_conjunction_mask_witness :
  let parent :=
    mkDDF (mkDF ["a"; "b"] [])
          [mkDF ["a"; "b"] [[CInt 1; CInt 10]; [CInt 2; CInt 5]];
           mkDF ["a"; "b"] [[CInt 3; CInt 20]]] in
  let preds := [[[true; false]; [true]]; [[true; true]; [false]]] in
  visit_Filter parent preds
  = Ok (mkDDF (_meta parent) (filter_partitions (mask_at preds) 0 (partitions parent))).
Proof.
  intros parent preds.
  apply (proj2 (filter_is_the_conjunction_mask parent preds)).
  - discriminate.
  - repeat constructor.
Defined.

(** ** The rules in sequence *)

(** The pipeline of section 8 of the spec: the table
    [{a:1,b:10},{a:2,b:5}] | [{a:3,b:20}], filtered by b > 5, sorted by a
    ascending, limited to 2 rows from offset 0. *)
Example filter_sort_limit_pipeline :
  let parent :=
    mkDDF (mkDF ["a"; "b"] [])
          [mkDF ["a"; "b"] [[CInt 1; CInt 10]; [CInt 2; CInt 5]];
           mkDF ["a"; "b"] [[CInt 3; CInt 20]]] in
  (filtered ← Relational.visit_Filter parent [[[true; false]; [true]]];
   sorted ← Sort.visit_Sort ["ibis_sort_key_0"] filtered
              [Sort.mkSortKey true false [[CInt 1]; [CInt 3]]];
   limited ← Limit.visit_PandasLimit Limit.consecutive "ibis_limit_0" sorted
               (Limit.LInt 2) (Limit.LInt 0);
   Ok (compute limited))
  = Ok (mkDF ["a"; "b"] [[CInt 1; CInt 10]; [CInt 3; CInt 20]]).
Proof. reflexivity. Qed.
(** * Further properties *)

(** ** Limit as a slice *)

Import Limit.

Lemma select_rows_never (keep : Z -> bool) (rs : list (list cell)) (ids : list Z) :
  (forall i, keep i = false) -> select_rows keep rs ids = [].
Proof.
  intros Hk. unfold select_rows. revert ids.
  induction rs as [|r rs IH]; intros [|i ids]; simpl; try reflexivity.
  rewrite Hk. apply IH.
Qed.

Lemma select_rows_nothing (off k : Z) (rs : list (list cell)) (ids : list Z) :
  k <= 0 -> select_rows (in_range off (Some k)) rs ids = [].
Proof.
  intros Hk. apply select_rows_never. intros i. unfold in_range.
  destruct (bool_decide (off <= i)) eqn:H1; simpl; [|reflexivity].
  apply bool_decide_eq_true in H1. apply bool_decide_eq_false. lia.
Qed.

Lemma limit_rows_slice (name : string) (parent : DaskDataFrame) (n offset : limit_arg)
    (off : Z) (bound : option Z) :
  wf_ddf parent -> name ∉ columns (_meta parent) ->
  denotes_int offset off -> stands_for n bound ->
  exists limited,
    visit_PandasLimit consecutive name parent n offset = Ok limited
    /\ columns (_meta limited) = columns (_meta parent)
    /\ rows (compute limited) = slice off bound (rows (compute parent)).
Proof.
  intros Hwf Hfresh Hoff Hn.
  destruct (limit_selects_by_identifier consecutive name parent n offset off bound
              Hwf (consecutive_covers parent) Hfresh Hoff Hn) as (limited & Hl & Hc & Hp).
  exists limited. split; [exact Hl|]. split; [exact Hc|].
  unfold compute. simpl. rewrite Hp. unfold consecutive.
  rewrite select_rows_consecutive. unfold slice.
  set (rs := concat (map rows (partitions parent))).
  destruct bound as [k|].
  - destruct (decide (off <= 0)) as [Hneg|Hpos].
    + rewrite select_rows_bounded by lia. rewrite Z.sub_0_r.
      replace (Z.to_nat off) with 0%nat by lia. rewrite Nat.sub_0_r. reflexivity.
    + destruct (decide (0 <= k)) as [Hk|Hk].
      * rewrite select_rows_window by lia. rewrite Z.sub_0_r. f_equal. lia.
      * rewrite select_rows_nothing by lia.
        replace (Z.to_nat (off + k) - Z.to_nat off)%nat with 0%nat by lia. reflexivity.
  - destruct (decide (off <= 0)) as [Hneg|Hpos].
    + rewrite select_rows_all by lia. replace (Z.to_nat off) with 0%nat by lia. reflexivity.
    + rewrite select_rows_from by lia. rewrite Z.sub_0_r. reflexivity.
Qed.

(** X1.  With the rows numbered consecutively from 0, limit and offset
    keep the rows at the positions [offset <= i < offset + n] of the parent
    read in partition order (all positions from [offset] on without a
    bound), whatever the signs of [n] and [offset]; the columns are those
    of the parent. *)
Theorem limit_keeps_a_slice (name : string) (parent : DaskDataFrame)
    (n offset : limit_arg) (off : Z) (bound : option Z) :
  wf_ddf parent -> name ∉ columns (_meta parent) ->
  denotes_int offset off -> stands_for n bound ->
  exists limited,
    visit_PandasLimit consecutive name parent n offset = Ok limited
    /\ columns (_meta limited) = columns (_meta parent)
    /\ rows (compute limited) = slice off bound (rows (compute parent)).
Proof. apply limit_rows_slice. Qed.

Lemma limit_keeps_a_slice_witness :
  let parent :=
    mkDDF (mkDF ["a"] [])
          [mkDF ["a"] [[CInt 10]; [CInt 11]]; mkDF ["a"] [[CInt 12]; [CInt 13]]] in
  exists limited,
    visit_PandasLimit consecutive "ibis_limit_0" parent (LInt 2) (LInt (-1)) = Ok limited
    /\ columns (_meta limited) = ["a"]
    /\ rows (compute limited) = [[CInt 10]].
Proof.
  intros parent.
  apply (limit_keeps_a_slice "ibis_limit_0" parent (LInt 2) (LInt (-1)) (-1) (Some 2)).
  - repeat constructor.
  - decide_by_computation.
  - constructor.
  - constructor.
Defined.

(** X2.  Which rows a limit keeps does not depend on how the rows of the
    table are cut into partitions. *)
Theorem limit_ignores_partitioning (name : string) (d1 d2 : DaskDataFrame)
    (n offset : limit_arg) (off : Z) (bound : option Z) :
  wf_ddf d1 -> wf_ddf d2 ->
  compute d1 = compute d2 ->
  name ∉ columns (_meta d1) ->
  denotes_int offset off -> stands_for n bound ->
  exists l1 l2,
    visit_PandasLimit consecutive name d1 n offset = Ok l1
    /\ visit_PandasLimit consecutive name d2 n offset = Ok l2
    /\ compute l1 = compute l2.
Proof.
  intros Hwf1 Hwf2 Hsame Hfresh Hoff Hn.
  assert (Hcols : columns (_meta d1) = columns (_meta d2)).
  { apply (f_equal columns) in Hsame. exact Hsame. }
  destruct (limit_rows_slice name d1 n offset off bound Hwf1 Hfresh Hoff Hn)
    as (l1 & H1 & Hc1 & Hr1).
  destruct (limit_rows_slice name d2 n offset off bound Hwf2) as (l2 & H2 & Hc2 & Hr2);
    [rewrite <- Hcols; assumption|assumption|assumption|].
  exists l1, l2. split; [exact H1|]. split; [exact H2|].
  unfold compute at 1 2. f_equal.
  - rewrite Hc1, Hc2. exact Hcols.
  - unfold compute in Hr1, Hr2. simpl in Hr1, Hr2. rewrite Hr1, Hr2.
    apply (f_equal rows) in Hsame. simpl in Hsame. rewrite Hsame. reflexivity.
Qed.

Lemma limit_ignores_partitioning_witness :
  let d1 :=
    mkDDF (mkDF ["a"] [])
          [mkDF ["a"] [[CInt 10]; [CInt 11]]; mkDF ["a"] [[CInt 12]; [CInt 13]]] in
  let d2 :=
    mkDDF (mkDF ["a"] [])
          [mkDF ["a"] [[CInt 10]]; mkDF ["a"] []; mkDF ["a"] [[CInt 11]; [CInt 12]; [CInt 13]]] in
  exists l1 l2,
    visit_PandasLimit consecutive "ibis_limit_0" d1 (LInt 2) (LInt 1) = Ok l1
    /\ visit_PandasLimit consecutive "ibis_limit_0" d2 (LInt 2) (LInt 1) = Ok l2
    /\ compute l1 = compute l2.
Proof.
  intros d1 d2.
  apply (limit_ignores_partitioning "ibis_limit_0" d1 d2 (LInt 2) (LInt 1) 1 (Some 2)).
  - repeat constructor.
  - repeat constructor.
  - reflexivity.
  - decide_by_computation.
  - constructor.
  - constructor.
Defined.

(** *** Arguments that cannot be read *)






(** X4.  With an offset and a count that are not negative, the limit
    returns [min(n, rowCount - offset)] rows, and all the rows from the
    offset on when there is no count. *)
Theorem limit_row_count (name : string) (parent : DaskDataFrame) (n offset : limit_arg)
    (off : Z) (bound : option Z) :
  wf_ddf parent -> name ∉ columns (_meta parent) ->
  denotes_int offset off -> stands_for n bound ->
  0 <= off -> (forall k, bound = Some k -> 0 <= k) ->
  exists limited,
    visit_PandasLimit consecutive name parent n offset = Ok limited
    /\ dask_len limited
       = match bound with
         | Some k => Nat.min (Z.to_nat k) (dask_len parent - Z.to_nat off)
         | None => (dask_len parent - Z.to_nat off)%nat
         end.
Proof.
  intros Hwf Hfresh Hoff Hn Hpos Hk.
  destruct (limit_rows_slice name parent n offset off bound Hwf Hfresh Hoff Hn)
    as (limited & Hl & _ & Hr).
  exists limited. split; [exact Hl|]. unfold dask_len, len. rewrite Hr. unfold slice.
  destruct bound as [k|].
  - specialize (Hk k eq_refl). rewrite length_take, length_drop.
    replace (Z.to_nat (off + k) - Z.to_nat off)%nat with (Z.to_nat k) by lia. reflexivity.
  - apply length_drop.
Qed.

Lemma limit_row_count_witness :
  let parent :=
    mkDDF (mkDF ["a"] [])
          [mkDF ["a"] [[CInt 10]; [CInt 20]]; mkDF ["a"] [[CInt 30]]] in
  exists limited,
    visit_PandasLimit consecutive "ibis_limit_0" parent (LInt 5) (LInt 1) = Ok limited
    /\ dask_len limited = 2%nat.
Proof.
  intros parent.
  apply (limit_row_count "ibis_limit_0" parent (LInt 5) (LInt 1) 1 (Some 5)).
  - repeat constructor.
  - decide_by_computation.
  - constructor.
  - constructor.
  - lia.
  - intros k [= <-]. lia.
Defined.
(** ** ArgMin / ArgMax: which row supplies the value *)

Import Reduction.

Lemma better_over (m : method) (z k bz : Z) :
  better m z bz = true -> better m k bz = false -> better m z k = true.
Proof.
  destruct m; simpl; rewrite !bool_decide_eq_true, bool_decide_eq_false; lia.
Qed.

Lemma scan_first_from {P : Type} (m : method) (l : list (cell * P)) (bz : Z) (bp : P)
    (z : Z) (p : P) :
  scan m l (Some (bz, bp)) = Some (z, p) ->
  ((z, p) = (bz, bp) /\ forall z' p', (CInt z', p') ∈ l -> better m z' bz = false)
  \/ (exists l1 l2,
        l = l1 ++ (CInt z, p) :: l2
        /\ better m z bz = true
        /\ (forall z' p', (CInt z', p') ∈ l1 -> better m z z' = true)
        /\ (forall z' p', (CInt z', p') ∈ l2 -> better m z' z = false)).
Proof.
  revert bz bp. induction l as [|[[k|] q] l IH]; intros bz bp H; simpl in H.
  - left. injection H as -> ->. split; [reflexivity|]. intros z' p' Hin. inversion Hin.
  - destruct (better m k bz) eqn:Hk.
    + right. destruct (IH _ _ H) as [[Heq Hall]|(l1 & l2 & -> & Hb & H1 & H2)].
      * injection Heq as -> ->. exists [], l. repeat split; auto.
        intros z' p' Hin. inversion Hin.
      * exists ((CInt k, q) :: l1), l2. repeat split; auto.
        -- eapply better_trans; eassumption.
        -- intros z' p' Hin. apply elem_of_cons in Hin.
           destruct Hin as [[= -> ->]|Hin]; eauto.
    + destruct (IH _ _ H) as [[Heq Hall]|(l1 & l2 & -> & Hb & H1 & H2)].
      * left. split; [assumption|]. intros z' p' Hin. apply elem_of_cons in Hin.
        destruct Hin as [[= -> ->]|Hin]; eauto.
      * right. exists ((CInt k, q) :: l1), l2. repeat split; auto.
        intros z' p' Hin. apply elem_of_cons in Hin.
        destruct Hin as [[= -> ->]|Hin]; eauto using better_over.
  - destruct (IH _ _ H) as [[Heq Hall]|(l1 & l2 & -> & Hb & H1 & H2)].
    + left. split; [assumption|]. intros z' p' Hin. apply elem_of_cons in Hin.
      destruct Hin as [[=]|Hin]; eauto.
    + right. exists ((CNull, q) :: l1), l2. repeat split; auto.
      intros z' p' Hin. apply elem_of_cons in Hin. destruct Hin as [[=]|Hin]; eauto.
Qed.

Lemma scan_first {P : Type} (m : method) (l : list (cell * P)) (z : Z) (p : P) :
  scan m l None = Some (z, p) ->
  exists l1 l2,
    l = l1 ++ (CInt z, p) :: l2
    /\ (forall z' p', (CInt z', p') ∈ l1 -> better m z z' = true)
    /\ (forall z' p', (CInt z', p') ∈ l2 -> better m z' z = false).
Proof.
  induction l as [|[[k|] q] l IH]; intros H; simpl in H; [discriminate| |].
  - apply scan_first_from in H.
    destruct H as [[Heq Hall]|(l1 & l2 & -> & Hb & H1 & H2)].
    + injection Heq as -> ->. exists [], l. repeat split; auto.
      intros z' p' Hin. inversion Hin.
    + exists ((CInt k, q) :: l1), l2. repeat split; auto.
      intros z' p' Hin. apply elem_of_cons in Hin. destruct Hin as [[= -> ->]|Hin]; eauto.
  - destruct (IH H) as (l1 & l2 & -> & H1 & H2).
    exists ((CNull, q) :: l1), l2. repeat split; auto.
    intros z' p' Hin. apply elem_of_cons in Hin. destruct Hin as [[=]|Hin]; eauto.
Qed.

Lemma winner_first (m : method) (ik iv : nat) (rs : list (list cell)) (w : list cell) :
  winner m (map (proj ik iv) rs) = Some w ->
  exists pre r post z,
    rs = pre ++ r :: post
    /\ w = proj ik iv r
    /\ cell_of ik r = CInt z
    /\ (forall r' z', r' ∈ pre -> cell_of ik r' = CInt z' -> better m z z' = true)
    /\ (forall r' z', r' ∈ post -> cell_of ik r' = CInt z' -> better m z' z = false).
Proof.
  unfold winner. intros H.
  destruct (scan m (keyed (map (proj ik iv) rs)) None) as [[z w']|] eqn:Hs;
    simpl in H; [|discriminate].
  injection H as ->. apply scan_first in Hs. destruct Hs as (l1 & l2 & Hl & H1 & H2).
  unfold keyed in Hl. rewrite map_map in Hl.
  apply fmap_app_inv in Hl. destruct Hl as (pre & rest & Hpre & Hrest & ->).
  symmetry in Hrest. apply fmap_cons_inv in Hrest.
  destruct Hrest as (r & post & Hr & Hpost & ->).
  injection Hr as Hz Hw. exists pre, r, post, z. repeat split; auto.
  - intros r' z' Hin Hz'. apply (H1 z' (proj ik iv r')). rewrite Hpre.
    apply list_elem_of_fmap. exists r'. split; [|assumption].
    unfold cell_of in Hz'. simpl. rewrite Hz'. reflexivity.
  - intros r' z' Hin Hz'. apply (H2 z' (proj ik iv r')). rewrite Hpost.
    apply list_elem_of_fmap. exists r'. split; [|assumption].
    unfold cell_of in Hz'. simpl. rewrite Hz'. reflexivity.
Qed.

(** X5.  Over a table whose partitions each hold a non-null key, the
    reduction returns the value of the first row, in partition order,
    whose key is extremal: the keys before it are strictly worse, the keys
    after it are not better.  Ties go to the row seen first. *)
Theorem argminmax_returns_first_extremal (m : method) (key arg : string) (se : nat)
    (d : DaskDataFrame) (ik iv : nat) :
  key <> arg -> (2 <= se)%nat ->
  col_index key (columns (_meta d)) = Some ik ->
  col_index arg (columns (_meta d)) = Some iv ->
  NoDup (columns (_meta d)) ->
  Forall (fun p => columns p = columns (_meta d)) (partitions d) ->
  Forall (has_key key) (partitions d) ->
  partitions d <> [] ->
  exists pre r post z,
    rows (compute d) = pre ++ r :: post
    /\ cell_of ik r = CInt z
    /\ visit_ArgMinMax m arg key None se (Dask d) = Ok (cell_of iv r)
    /\ (forall r' z', r' ∈ pre -> cell_of ik r' = CInt z' -> better m z z' = true)
    /\ (forall r' z', r' ∈ post -> cell_of ik r' = CInt z' -> better m z' z = false).
Proof.
  intros Hne Hse Hk Hv Hnd Hcols Hkeys Hps.
  destruct (reduction_value m key arg Hne se d ik iv Hse Hk Hv Hnd Hcols Hkeys Hps)
    as (w & Hw & Hd).
  destruct (winner_first m ik iv _ w Hw) as (pre & r & post & z & Hr & -> & Hz & H1 & H2).
  exists pre, r, post, z. repeat split; auto.
Qed.

Lemma argminmax_returns_first_extremal_witness :
  let d := mkDDF (mkDF ["k"; "v"] [])
                 [mkDF ["k"; "v"] [[CInt 1; CInt 10]; [CInt 5; CInt 2]];
                  mkDF ["k"; "v"] [[CInt 5; CInt 9]]] in
  exists pre r post z,
    rows (compute d) = pre ++ r :: post
    /\ cell_of 0 r = CInt z
    /\ visit_ArgMinMax argmax "v" "k" None 2 (Dask d) = Ok (cell_of 1 r)
    /\ (forall r' z', r' ∈ pre -> cell_of 0 r' = CInt z' -> better argmax z z' = true)
    /\ (forall r' z', r' ∈ post -> cell_of 0 r' = CInt z' -> better argmax z' z = false).
Proof.
  intros d.
  apply (argminmax_returns_first_extremal argmax "k" "v" 2 d 0 1).
  - discriminate.
  - lia.
  - reflexivity.
  - reflexivity.
  - decide_by_computation.
  - repeat constructor.
  - repeat constructor; eexists _, _; (split; [reflexivity|]); left.
  - discriminate.
Defined.

(** *** The table held by dask and by pandas *)

Lemma aggregate_whole_table (m : method) (key arg : string) (cols : list string)
    (rs : list (list cell)) (ik iv : nat) (w : list cell) :
  col_index key cols = Some ik -> col_index arg cols = Some iv -> NoDup cols ->
  winner m (map (proj ik iv) rs) = Some w ->
  argminmax_aggregate key arg m (mkDF cols rs) = Ok (default CNull (w !! 1%nat)).
Proof.
  intros Hk Hv Hnd Hw. unfold argminmax_aggregate, column_arg, getitem. simpl.
  rewrite Hk, Hv. simpl.
  rewrite bool_decide_false by (pose proof (occurrences_NoDup key cols Hnd); lia).
  assert (Hne : map (proj ik iv) rs <> []).
  { intros E. rewrite E in Hw. discriminate. }
  pose proof (series_arg_winner m _ Hne) as Hs. rewrite Hw in Hs.
  destruct Hs as (i & Hi & Hb & Hl & _).
  rewrite map_map in Hi. simpl in Hi. unfold key0 in Hi. simpl in Hi.
  rewrite Hi. simpl. unfold iloc_scalar. rewrite length_map in *.
  rewrite bool_decide_true by lia. rewrite bool_decide_false by lia.
  rewrite list_lookup_fmap in Hl. rewrite list_lookup_fmap.
  destruct (rs !! Z.to_nat i) as [r|]; simpl in *; [|discriminate].
  injection Hl as <-. reflexivity.
Qed.

(** X6.  Over a table whose partitions each hold a non-null key, the
    reduction on the partitioned table returns what the direct evaluation
    returns on the same rows held as one pandas frame. *)
Theorem argminmax_dask_agrees_with_pandas (m : method) (key arg : string) (se : nat)
    (d : DaskDataFrame) :
  key <> arg -> (2 <= se)%nat ->
  NoDup (columns (_meta d)) -> arg ∈ columns (_meta d) ->
  Forall (fun p => columns p = columns (_meta d)) (partitions d) ->
  Forall (has_key key) (partitions d) ->
  partitions d <> [] ->
  visit_ArgMinMax m arg key None se (Dask d)
  = visit_ArgMinMax m arg key None se (Pandas (compute d)).
Proof.
  intros Hne Hse Hnd Harg Hcols Hkeys Hps.
  assert (Hk : is_Some (col_index key (columns (_meta d)))).
  { destruct (partitions d) as [|p ps]; [contradiction|].
    apply Forall_cons in Hcols, Hkeys.
    destruct Hcols as [Hc _], Hkeys as [(keys & z & Hg & _) _].
    unfold getitem in Hg. rewrite Hc in Hg.
    destruct (col_index key (columns (_meta d))); [eauto|discriminate]. }
  destruct Hk as [ik Hk]. destruct (col_index_is_Some _ _ Harg) as [iv Hv].
  destruct (reduction_value m key arg Hne se d ik iv Hse Hk Hv Hnd Hcols Hkeys Hps)
    as (w & Hw & ->).
  simpl. symmetry. apply (aggregate_whole_table m key arg _ _ ik iv); assumption.
Qed.

Lemma argminmax_dask_agrees_with_pandas_witness :
  visit_ArgMinMax argmin "v" "k" None 2 (Dask example_three)
  = visit_ArgMinMax argmin "v" "k" None 2 (Pandas (compute example_three)).
Proof.
  apply (argminmax_dask_agrees_with_pandas argmin "k" "v" 2 example_three).
  - discriminate.
  - lia.
  - decide_by_computation.
  - decide_by_computation.
  - repeat constructor.
  - repeat constructor; eexists _, _; (split; [reflexivity|]); left.
  - discriminate.
Defined.

(** *** Partitions without rows *)

Lemma chunk_defined_or_empty (m : method) (key arg : string) (p : DataFrame) :
  key ∈ columns p -> arg ∈ columns p -> NoDup (columns p) ->
  (rows p = [] ->
   argminmax_chunk key arg m p
   = Raise (ValueError ("attempt to get " ++ method_name m ++ " of an empty sequence")))
  /\ (rows p <> [] -> is_ok (argminmax_chunk key arg m p) = true).
Proof.
  intros Hk Hv Hnd.
  destruct (col_index_is_Some _ _ Hk) as [ik Hik].
  destruct (col_index_is_Some _ _ Hv) as [iv Hiv].
  unfold argminmax_chunk, column_arg, getitem, getitem2. rewrite Hik, Hiv. simpl.
  rewrite bool_decide_false by (pose proof (occurrences_NoDup key _ Hnd); lia).
  split.
  - intros ->. reflexivity.
  - intros Hne. destruct (rows p) as [|r rs]; [contradiction|]. unfold series_arg.
    cbn [map]. destruct (scan m _ None) as [[? ?]|]; reflexivity.
Qed.

Lemma traverse_raises {A B : Type} (f : A -> result B) (l : list A) (e : exn) :
  Forall (fun x => is_ok (f x) = true \/ f x = Raise e) l ->
  Exists (fun x => f x = Raise e) l ->
  traverse f l = Raise e.
Proof.
  induction 1 as [|x l Hx _ IH]; intros Hex; [inversion Hex|]. simpl.
  destruct Hx as [Hok|Hr].
  - destruct (f x) as [y|e'] eqn:Hfx; [|discriminate]. simpl.
    apply Exists_cons in Hex. destruct Hex as [Hex|Hex]; [congruence|].
    rewrite (IH Hex). reflexivity.
  - rewrite Hr. reflexivity.
Qed.

Lemma reduction_over_empty_partition (m : method) (key arg : string) (se : nat)
    (d : DaskDataFrame) :
  (2 <= se)%nat ->
  NoDup (columns (_meta d)) -> key ∈ columns (_meta d) -> arg ∈ columns (_meta d) ->
  Forall (fun p => columns p = columns (_meta d)) (partitions d) ->
  Exists (fun p => rows p = []) (partitions d) ->
  visit_ArgMinMax m arg key None se (Dask d)
  = Raise (ValueError ("attempt to get " ++ method_name m ++ " of an empty sequence")).
Proof.
  intros Hse Hnd Hk Hv Hcols Hex. unfold visit_ArgMinMax, reduction. simpl.
  rewrite bool_decide_false by lia.
  rewrite (traverse_raises _ _
             (ValueError ("attempt to get " ++ method_name m ++ " of an empty sequence")));
    [reflexivity| |].
  - eapply Forall_impl; [exact Hcols|]. intros p Hc. simpl in Hc.
    destruct (chunk_defined_or_empty m key arg p) as [He Hn];
      try (rewrite Hc; assumption).
    destruct (rows p) as [|r rs] eqn:Hr; [right; apply He; reflexivity|].
    left. apply Hn. discriminate.
  - rewrite Exists_exists in *. destruct Hex as (p & Hin & Hr). exists p. split; [assumption|].
    rewrite Forall_forall in Hcols. pose proof (Hcols p Hin) as Hc.
    destruct (chunk_defined_or_empty m key arg p) as [He _];
      try (rewrite Hc; assumption).
    apply He. assumption.
Qed.

(** X7.  As soon as one partition of the table has no row, the reduction
    fails with the [ValueError] of an argmin / argmax over an empty
    series, whatever the other partitions hold. *)
Theorem argminmax_fails_on_an_empty_partition (m : method) (key arg : string) (se : nat)
    (d : DaskDataFrame) :
  (2 <= se)%nat ->
  NoDup (columns (_meta d)) -> key ∈ columns (_meta d) -> arg ∈ columns (_meta d) ->
  Forall (fun p => columns p = columns (_meta d)) (partitions d) ->
  Exists (fun p => rows p = []) (partitions d) ->
  visit_ArgMinMax m arg key None se (Dask d)
  = Raise (ValueError ("attempt to get " ++ method_name m ++ " of an empty sequence")).
Proof. apply reduction_over_empty_partition. Qed.

Lemma argminmax_fails_on_an_empty_partition_witness :
  visit_ArgMinMax argmax "v" "k" None 8
    (Dask (mkDDF example_meta [mkDF ["k"; "v"] example_rows; mkDF ["k"; "v"] []]))
  = Raise (ValueError "attempt to get argmax of an empty sequence").
Proof.
  apply (argminmax_fails_on_an_empty_partition argmax "k" "v" 8
           (mkDDF example_meta [mkDF ["k"; "v"] example_rows; mkDF ["k"; "v"] []])).
  - lia.
  - decide_by_computation.
  - decide_by_computation.
  - decide_by_computation.
  - repeat constructor.
  - right. left. reflexivity.
Defined.
(** ** Filter: what the mask keeps *)

Import Relational.

Lemma filter_with_predicates (parent : DaskDataFrame) (predicates : list (list (list bool))) :
  predicates <> [] -> Forall (along parent) predicates ->
  visit_Filter parent predicates
  = Ok (mkDDF (_meta parent)
          (filter_partitions (mask_at predicates) 0 (partitions parent))).
Proof.
  intros Hne Hal. destruct predicates as [|p ps]; [contradiction|]. clear Hne.
  apply Forall_cons in Hal. destruct Hal as [Hp Hps]. unfold visit_Filter.
  rewrite (tabulate_partitions_lookup [] p (partitions parent) Hp) at 1. simpl.
  rewrite (reduce_tabulated ps _ _ Hps). simpl.
  rewrite loc_tabulated. reflexivity.
Qed.

Lemma keep_from_ext (f g : nat -> bool) (i : nat) (rs : list (list cell)) :
  (forall k, f k = g k) -> keep_from f i rs = keep_from g i rs.
Proof.
  intros H. revert i. induction rs as [|r rs IH]; intros i; simpl; [reflexivity|].
  rewrite H, IH. reflexivity.
Qed.

Lemma filter_partitions_ext (f g : nat -> nat -> bool) (j : nat) (ps : list DataFrame) :
  (forall a b, f a b = g a b) -> filter_partitions f j ps = filter_partitions g j ps.
Proof.
  intros H. revert j. induction ps as [|p ps IH]; intros j; simpl; [reflexivity|].
  rewrite IH. f_equal. f_equal. apply keep_from_ext. intros k. apply H.
Qed.

Lemma mask_at_same_predicates (preds1 preds2 : list (list (list bool))) (j i : nat) :
  (forall p, p ∈ preds1 <-> p ∈ preds2) -> mask_at preds1 j i = mask_at preds2 j i.
Proof.
  intros H. unfold mask_at. apply eq_true_iff_eq. rewrite !forallb_forall.
  split; intros Hall p Hin; apply Hall; apply list_elem_of_In; apply H;
    apply list_elem_of_In; assumption.
Qed.

(** X8.  The result of a filter depends on the set of its predicates
    only: their order and their repetitions change nothing. *)
Theorem filter_depends_on_the_set_of_predicates
    (parent : DaskDataFrame) (preds1 preds2 : list (list (list bool))) :
  Forall (along parent) preds1 ->
  (forall p, p ∈ preds1 <-> p ∈ preds2) ->
  visit_Filter parent preds1 = visit_Filter parent preds2.
Proof.
  intros Hal Hset.
  destruct preds1 as [|p1 ps1].
  { destruct preds2 as [|p2 ps2]; [reflexivity|].
    exfalso. apply (not_elem_of_nil p2). apply Hset. left. }
  destruct preds2 as [|p2 ps2].
  { exfalso. apply (not_elem_of_nil p1). apply Hset. left. }
  rewrite !filter_with_predicates; try discriminate; try assumption.
  - f_equal. f_equal. apply filter_partitions_ext. intros a b.
    apply mask_at_same_predicates. assumption.
  - rewrite Forall_forall in *. intros p Hp. apply Hal, Hset, Hp.
Qed.

Lemma filter_depends_on_the_set_of_predicates_witness :
  let parent :=
    mkDDF (mkDF ["a"; "b"] [])
          [mkDF ["a"; "b"] [[CInt 1; CInt 10]; [CInt 2; CInt 5]];
           mkDF ["a"; "b"] [[CInt 3; CInt 20]]] in
  let p := [[true; false]; [true]] in
  let q := [[true; true]; [false]] in
  visit_Filter parent [p; q] = visit_Filter parent [q; p; q].
Proof.
  intros parent p q.
  apply (filter_depends_on_the_set_of_predicates parent [p; q] [q; p; q]).
  - repeat constructor.
  - intros x. rewrite !elem_of_cons. rewrite !elem_of_nil. tauto.
Defined.

Lemma keep_from_sublist (f : nat -> bool) (i : nat) (rs : list (list cell)) :
  keep_from f i rs `sublist_of` rs.
Proof.
  revert i. induction rs as [|r rs IH]; intros i; simpl; [constructor|].
  destruct (f i); [apply sublist_skip|apply sublist_cons]; apply IH.
Qed.

Lemma filter_partitions_sublists (f : nat -> nat -> bool) (j : nat) (ps : list DataFrame) :
  Forall2 (fun p q => columns q = columns p /\ rows q `sublist_of` rows p)
          ps (filter_partitions f j ps).
Proof.
  revert j. induction ps as [|p ps IH]; intros j; simpl; constructor; [|apply IH].
  split; [reflexivity|]. apply keep_from_sublist.
Qed.

(** X9.  A filter whose predicates lie along the partitions of the parent
    never fails, never moves a row to another partition and never adds or
    reorders rows: the result has the template and as many partitions as
    the parent, and the rows of each partition are a subsequence of the
    rows the parent has there (a partition may be left without rows). *)
Theorem filter_only_removes_rows
    (parent : DaskDataFrame) (predicates : list (list (list bool))) :
  Forall (along parent) predicates ->
  exists result,
    visit_Filter parent predicates = Ok result
    /\ _meta result = _meta parent
    /\ Forall2 (fun p q => columns q = columns p /\ rows q `sublist_of` rows p)
               (partitions parent) (partitions result).
Proof.
  intros Hal. destruct predicates as [|p ps].
  - exists parent. split; [reflexivity|]. split; [reflexivity|].
    apply Forall_Forall2_diag. apply Forall_forall. intros q _. split; reflexivity.
  - rewrite filter_with_predicates by (discriminate || assumption).
    eexists. split; [reflexivity|]. split; [reflexivity|]. simpl.
    apply filter_partitions_sublists.
Qed.

Lemma filter_only_removes_rows_witness :
  let parent :=
    mkDDF (mkDF ["a"; "b"] [])
          [mkDF ["a"; "b"] [[CInt 1; CInt 10]; [CInt 2; CInt 5]];
           mkDF ["a"; "b"] [[CInt 3; CInt 20]]] in
  exists result,
    visit_Filter parent [[[true; false]; [false]]] = Ok result
    /\ _meta result = _meta parent
    /\ Forall2 (fun p q => columns q = columns p /\ rows q `sublist_of` rows p)
               (partitions parent) (partitions result).
Proof.
  intros parent.
  apply (filter_only_removes_rows parent [[[true; false]; [false]]]).
  repeat constructor.
Defined.

(** *** A filter before an argmin / argmax *)

Lemma keep_from_none (f : nat -> bool) (i : nat) (rs : list (list cell)) :
  (forall k, (i <= k < i + length rs)%nat -> f k = false) -> keep_from f i rs = [].
Proof.
  revert i. induction rs as [|r rs IH]; intros i H; simpl; [reflexivity|].
  rewrite H by (simpl; lia). apply IH. intros k Hk. apply H. simpl. lia.
Qed.

Lemma filter_partitions_lookup (f : nat -> nat -> bool) (j0 j : nat) (ps : list DataFrame)
    (p : DataFrame) :
  ps !! j = Some p ->
  filter_partitions f j0 ps !! j
  = Some (mkDF (columns p) (keep_from (f (j0 + j)%nat) 0 (rows p))).
Proof.
  revert j0 j. induction ps as [|q ps IH]; intros j0 j H; [discriminate|].
  destruct j as [|j]; simpl in *.
  - injection H as ->. rewrite Nat.add_0_r. reflexivity.
  - rewrite (IH (S j0) j H). replace (j0 + S j)%nat with (S j0 + j)%nat by lia. reflexivity.
Qed.

Lemma filter_partitions_columns (f : nat -> nat -> bool) (j : nat) (ps : list DataFrame)
    (cols : list string) :
  Forall (fun p => columns p = cols) ps ->
  Forall (fun p => columns p = cols) (filter_partitions f j ps).
Proof.
  intros H. revert j. induction H as [|p ps Hp _ IH]; intros j; simpl; constructor; auto.
Qed.

(** X10.  When the predicates of a filter are false on every row of one
    partition, the filtered table keeps that partition without rows, and
    an argmin / argmax over it fails with the [ValueError] of an empty
    series even though other partitions still hold rows. *)
Theorem argminmax_fails_after_a_filter_empties_a_partition
    (m : Reduction.method) (key arg : string) (se : nat)
    (parent : DaskDataFrame) (predicates : list (list (list bool)))
    (j : nat) (p : DataFrame) :
  (2 <= se)%nat ->
  NoDup (columns (_meta parent)) ->
  key ∈ columns (_meta parent) -> arg ∈ columns (_meta parent) ->
  Forall (fun q => columns q = columns (_meta parent)) (partitions parent) ->
  predicates <> [] -> Forall (along parent) predicates ->
  partitions parent !! j = Some p ->
  (forall i, (i < len p)%nat -> mask_at predicates j i = false) ->
  exists filtered,
    visit_Filter parent predicates = Ok filtered
    /\ Reduction.visit_ArgMinMax m arg key None se (Reduction.Dask filtered)
       = Raise (ValueError ("attempt to get " ++ Reduction.method_name m
                              ++ " of an empty sequence")).
Proof.
  intros Hse Hnd Hk Hv Hcols Hne Hal Hj Hmask.
  rewrite filter_with_predicates by assumption.
  eexists. split; [reflexivity|].
  apply reduction_over_empty_partition; simpl; try assumption.
  - apply filter_partitions_columns. assumption.
  - apply Exists_exists. eexists. split.
    + eapply list_elem_of_lookup_2. apply (filter_partitions_lookup _ 0 j _ p Hj).
    + simpl. apply keep_from_none. intros k Hk'. apply Hmask. unfold len. lia.
Qed.

Lemma argminmax_fails_after_a_filter_empties_a_partition_witness :
  let parent :=
    mkDDF (mkDF ["k"; "v"] [])
          [mkDF ["k"; "v"] [[CInt 1; CInt 10]; [CInt 5; CInt 2]];
           mkDF ["k"; "v"] [[CInt 3; CInt 9]]] in
  exists filtered,
    visit_Filter parent [[[true; true]; [false]]] = Ok filtered
    /\ Reduction.visit_ArgMinMax Reduction.argmax "v" "k" None 8 (Reduction.Dask filtered)
       = Raise (ValueError "attempt to get argmax of an empty sequence").
Proof.
  intros parent.
  apply (argminmax_fails_after_a_filter_empties_a_partition Reduction.argmax "k" "v" 8
           parent [[[true; true]; [false]]] 1 (mkDF ["k"; "v"] [[CInt 3; CInt 9]])).
  - lia.
  - decide_by_computation.
  - decide_by_computation.
  - decide_by_computation.
  - repeat constructor.
  - discriminate.
  - repeat constructor.
  - reflexivity.
  - intros i Hi. assert (i = 0%nat) as -> by (unfold len in Hi; simpl in Hi; lia).
    reflexivity.
Defined.
(** ** Sort: the rows of the result *)

Import Sort.






(** ** Grouped aggregation: the rows of the result *)

Import Aggregate.

Section GroupedRows.

Context (from_ibis : ibis_dtype -> pandas_dtype).
Context (asframe : list (string * cell) -> TypedFrame).

Lemma groupby_positions (parent : DaskDataFrame) (names : list string) :
  Forall (fun n => n ∈ columns (_meta parent)) names ->
  groupby parent names
  = Ok (mkGroupBy (compute parent) (positions_of (columns (_meta parent)) names)).
Proof.
  intros H. unfold groupby, positions_of.
  rewrite (traverse_map _ (fun n => default 0%nat (col_index n (columns (_meta parent))))).
  - reflexivity.
  - eapply Forall_impl; [exact H|]. intros n Hn.
    destruct (col_index_is_Some _ _ Hn) as [i ->]. reflexivity.
Qed.

Lemma groupby_unknown (parent : DaskDataFrame) (names : list string) :
  Exists (fun n => n ∉ columns (_meta parent)) names ->
  exists name, name ∈ names /\ (name ∉ columns (_meta parent))
               /\ groupby parent names = Raise (KeyError name).
Proof.
  unfold groupby. induction names as [|n names IH]; intros H; [inversion H|].
  cbn [traverse]. destruct (col_index n (columns (_meta parent))) as [i|] eqn:Hi.
  - apply Exists_cons in H. destruct H as [H|H].
    + apply col_index_None in H. congruence.
    + destruct (IH H) as (name & Hin & Hout & Hr). exists name.
      split; [right; exact Hin|]. split; [exact Hout|].
      cbn [mbind result_bind].
      destruct (traverse _ names) as [ps|e]; cbn [mbind result_bind] in *;
        [discriminate|exact Hr].
  - exists n. split; [left|]. split; [|reflexivity].
    intros Hin. destruct (col_index_is_Some _ _ Hin) as [i Hi']. congruence.
Qed.

Lemma apply_values (g : GroupBy) (m : Metric) (meta : SeriesMeta) :
  (forall k, k ∈ group_keys g ->
             is_ok (m_fn m (Reduction.Pandas (group_frame g k))) = true) ->
  apply g (m_fn m) meta
  = Ok (mkMeasure meta (map (fun k => (k, metric_value m g k)) (group_keys g))).
Proof.
  intros H. unfold apply.
  rewrite (traverse_map _ (fun k => (k, metric_value m g k))); [reflexivity|].
  apply Forall_forall. intros k Hk. specialize (H k Hk). unfold metric_value.
  destruct (m_fn m _); [reflexivity|discriminate].
Qed.

Lemma zip_with_same_keys {K A B C : Type} (f : A -> B -> C) (a : K -> A) (b : K -> B)
    (keys : list K) :
  zip_with f (map a keys) (map b keys) = map (fun k => f (a k) (b k)) keys.
Proof. induction keys as [|k keys IH]; simpl; [reflexivity|]. rewrite IH. reflexivity. Qed.

Lemma side_by_side_values (g : GroupBy) (metas : Metric -> SeriesMeta)
    (metrics : list Metric) :
  metrics <> [] ->
  side_by_side
    (map (fun m => mkMeasure (metas m)
                     (map (fun k => (k, metric_value m g k)) (group_keys g))) metrics)
  = map (fun k => (k, map (fun m => metric_value m g k) metrics)) (group_keys g).
Proof.
  induction metrics as [|m metrics IH]; intros Hne; [contradiction|].
  destruct metrics as [|m' metrics].
  - simpl. rewrite map_map. reflexivity.
  - specialize (IH ltac:(discriminate)).
    change (side_by_side (map _ (m :: m' :: metrics)))
      with (zip_with (fun (kv : row * cell) (e : row * row) => (fst kv, snd kv :: snd e))
              (map (fun k => (k, metric_value m g k)) (group_keys g))
              (side_by_side
                 (map (fun m => mkMeasure (metas m)
                                  (map (fun k => (k, metric_value m g k)) (group_keys g)))
                      (m' :: metrics)))).
    rewrite IH. rewrite zip_with_same_keys. reflexivity.
Qed.

Lemma grouped_rows (parent : DaskDataFrame) (groups : list Group) (metrics : list Metric) :
  groups <> [] -> metrics <> [] ->
  Forall (fun g => g_name g ∈ columns (_meta parent)) groups ->
  let g := mkGroupBy (compute parent)
             (positions_of (columns (_meta parent)) (map g_name groups)) in
  (forall m k, m ∈ metrics -> k ∈ group_keys g ->
               is_ok (m_fn m (Reduction.Pandas (group_frame g k))) = true) ->
  exists r,
    visit_PandasAggregate from_ibis asframe parent groups metrics = Ok r
    /\ data r = map (fun k => k ++ map (fun m => metric_value m g k) metrics) (group_keys g).
Proof.
  intros Hg Hm Hcols g Hok. unfold visit_PandasAggregate.
  destruct groups as [|g0 gs]; [contradiction|]. set (groups := g0 :: gs) in *.
  rewrite groupby_positions by (rewrite Forall_map; exact Hcols).
  cbn [mbind result_bind]. fold g.
  rewrite (traverse_map _
             (fun m => (m_name m,
                        mkMeasure (template from_ibis groups m)
                          (map (fun k => (k, metric_value m g k)) (group_keys g))))).
  2:{ apply Forall_forall. intros m Hin. rewrite apply_values; [reflexivity|].
      intros k Hk. apply Hok; assumption. }
  cbn [mbind result_bind]. unfold concat_axis1.
  destruct metrics as [|m0 ms]; [contradiction|]. set (metrics := m0 :: ms) in *.
  cbn [map]. cbn [mbind result_bind]. eexists. split; [reflexivity|].
  unfold rename, reset_index. cbn [data entries].
  change ((m_name m0, ?x) :: map ?f ms) with (map f metrics).
  rewrite map_map. cbn [snd].
  rewrite (side_by_side_values g (template from_ibis groups) metrics Hm).
  rewrite map_map. reflexivity.
Qed.

Lemma group_keys_spec (g : GroupBy) (k : row) :
  k ∈ group_keys g
  <-> has_null k = false
      /\ exists r, r ∈ rows (gb_frame g) /\ key_of (gb_positions g) r = k.
Proof.
  unfold group_keys. rewrite elem_of_remove_dups, list_elem_of_In, filter_In.
  rewrite <- list_elem_of_In, list_elem_of_fmap, negb_true_iff.
  split.
  - intros [(r & -> & Hr) Hn]. split; [exact Hn|]. exists r. split; [exact Hr|reflexivity].
  - intros [Hn (r & Hr & <-)]. split; [|exact Hn]. exists r. split; [reflexivity|exact Hr].
Qed.

(** X12.  A grouped aggregation whose metrics succeed on every group
    returns one row per distinct combination of non-null group keys found
    in the parent: the keys of the group followed by the value of each
    metric on the rows of that group, in the order of the metrics.  Rows
    with a null key belong to no group. *)
Theorem grouped_aggregate_has_one_row_per_group
    (parent : DaskDataFrame) (groups : list Group) (metrics : list Metric) :
  groups <> [] -> metrics <> [] ->
  Forall (fun g => g_name g ∈ columns (_meta parent)) groups ->
  let g := mkGroupBy (compute parent)
             (positions_of (columns (_meta parent)) (map g_name groups)) in
  (forall m k, m ∈ metrics -> k ∈ group_keys g ->
               is_ok (m_fn m (Reduction.Pandas (group_frame g k))) = true) ->
  exists r keys,
    visit_PandasAggregate from_ibis asframe parent groups metrics = Ok r
    /\ data r ≡ₚ map (fun k => k ++ map (fun m => metric_value m g k) metrics) keys
    /\ NoDup keys
    /\ (forall k, k ∈ keys
                  <-> has_null k = false
                      /\ exists row, row ∈ rows (compute parent)
                                     /\ key_of (gb_positions g) row = k).
Proof.
  intros Hg Hm Hcols g Hok.
  destruct (grouped_rows parent groups metrics Hg Hm Hcols Hok) as (r & Hr & Hd).
  exists r, (group_keys g). split; [exact Hr|]. split; [rewrite Hd; reflexivity|].
  split; [apply NoDup_remove_dups|]. intros k. apply group_keys_spec.
Qed.

(** X13.  A grouped aggregation over a grouping column the parent does
    not have fails with the [KeyError] of such a column, whatever the
    metrics: none of them is evaluated. *)
Theorem grouped_aggregate_unknown_column
    (parent : DaskDataFrame) (groups : list Group) (metrics : list Metric) :
  Exists (fun g => g_name g ∉ columns (_meta parent)) groups ->
  exists name,
    name ∈ map g_name groups /\ (name ∉ columns (_meta parent))
    /\ visit_PandasAggregate from_ibis asframe parent groups metrics = Raise (KeyError name).
Proof.
  intros H. destruct (groupby_unknown parent (map g_name groups)) as (name & Hin & Hout & Hr).
  { rewrite Exists_fmap. exact H. }
  exists name. split; [exact Hin|]. split; [exact Hout|].
  unfold visit_PandasAggregate. destruct groups as [|g0 gs]; [inversion H|].
  rewrite Hr. reflexivity.
Qed.

End GroupedRows.

Lemma grouped_aggregate_has_one_row_per_group_witness :
  let parent :=
    mkDDF (mkDF ["g"; "x"] [])
          [mkDF ["g"; "x"] [[CInt 1; CInt 10]; [CInt 2; CInt 5]];
           mkDF ["g"; "x"] [[CNull; CInt 7]; [CInt 1; CInt 20]]] in
  let groups := [mkGroup "key" "g"] in
  let metrics := [mkMetric "count" Int64
                    (fun t => match t with
                              | Reduction.Pandas df => Ok (CInt (Z.of_nat (len df)))
                              | Reduction.Dask d => Ok (CInt (Z.of_nat (dask_len d)))
                              end)] in
  let g := mkGroupBy (compute parent) [0%nat] in
  exists r keys,
    visit_PandasAggregate numpy_dtype asframe_row parent groups metrics = Ok r
    /\ data r ≡ₚ map (fun k => k ++ map (fun m => metric_value m g k) metrics) keys
    /\ NoDup keys
    /\ (forall k, k ∈ keys
                  <-> has_null k = false
                      /\ exists row, row ∈ rows (compute parent)
                                     /\ key_of [0%nat] row = k).
Proof.
  intros parent groups metrics g.
  apply (grouped_aggregate_has_one_row_per_group numpy_dtype asframe_row
           parent groups metrics).
  - discriminate.
  - discriminate.
  - repeat constructor.
  - intros m k Hm _. apply list_elem_of_singleton in Hm. subst m. reflexivity.
Defined.

Lemma grouped_aggregate_unknown_column_witness :
  exists name,
    name ∈ ["g"; "h"] /\ (name ∉ ["g"; "x"])
    /\ visit_PandasAggregate numpy_dtype asframe_row
         (mkDDF (mkDF ["g"; "x"] []) [mkDF ["g"; "x"] [[CInt 1; CInt 10]]])
         [mkGroup "g" "g"; mkGroup "h" "h"] []
       = Raise (KeyError name).
Proof.
  apply (grouped_aggregate_unknown_column numpy_dtype asframe_row
           (mkDDF (mkDF ["g"; "x"] []) [mkDF ["g"; "x"] [[CInt 1; CInt 10]]])
           [mkGroup "g" "g"; mkGroup "h" "h"] []).
  right. left. simpl. decide_by_computation.
Defined.
(** ** FindInSet and the case expressions *)

Import Select.

Lemma np_select_columns (n : nat) (condlist : list (list bool)) (choicelist : list choice)
    (default_ : choice) :
  condlist <> [] -> length condlist = length choicelist ->
  Forall (fun c : list bool => length c = n) condlist ->
  Forall (fun ch => fits n ch = true) choicelist -> fits n default_ = true ->
  np_select condlist choicelist default_
  = Ok (map (fun i => select_at i condlist choicelist default_) (seq 0 n)).
Proof.
  intros Hne Hlen Hc Hch Hd. unfold np_select.
  rewrite Hlen, Nat.eqb_refl. simpl.
  destruct condlist as [|c cs]; [contradiction|].
  pose proof (Forall_inv Hc) as Hn. simpl in Hn. rewrite Hn.
  replace (forallb _ (c :: cs)) with true.
  2:{ symmetry. apply forallb_forall. intros c' Hin. apply Nat.eqb_eq.
      rewrite Forall_forall in Hc. apply Hc. apply list_elem_of_In. exact Hin. }
  replace (forallb (fits n) choicelist) with true.
  2:{ symmetry. apply forallb_forall. intros ch Hin.
      rewrite Forall_forall in Hch. apply Hch. apply list_elem_of_In. exact Hin. }
  rewrite Hd. reflexivity.
Qed.

Lemma pd_Series_selected (n : nat) (f : nat -> cell) :
  pd_Series (map f (seq 0 n)) n = Ok (map f (seq 0 n)).
Proof.
  unfold pd_Series. rewrite length_map, length_seq.
  destruct (decide (n = n)); [reflexivity|contradiction].
Qed.

Lemma selected_lookup (n : nat) (f : nat -> cell) (i : nat) :
  (i < n)%nat -> map f (seq 0 n) !! i = Some (f i).
Proof.
  intros Hi. change (map f (seq 0 n)) with (f <$> seq 0 n).
  rewrite list_lookup_fmap, lookup_seq_lt by exact Hi. reflexivity.
Qed.

Lemma series_eq_columns (a : list cell) (values : list (list cell)) :
  Forall (fun v : list cell => length v = length a) values ->
  traverse (fun value => series_eq a value) values = Ok (map (zip_with cell_eqb a) values).
Proof.
  intros H. apply traverse_map. eapply Forall_impl; [exact H|]. intros v Hv. simpl in Hv.
  unfold series_eq, Relational.zip_exact.
  destruct (decide (length a = length v)); [reflexivity|congruence].
Qed.

Lemma select_at_position (i : nat) (x : cell) (needle : list cell)
    (values : list (list cell)) (k : nat) (default_ : choice) :
  needle !! i = Some x ->
  select_at i (map (zip_with cell_eqb needle) values)
    (imap (fun j _ => Scalar (CInt (Z.of_nat (k + j))))
          (map (zip_with cell_eqb needle) values))
    default_
  = match list_find (fun v : list cell => cell_eqb x (default CNull (v !! i)) = true) values
    with
    | Some (j, _) => CInt (Z.of_nat (k + j))
    | None => choice_at default_ i
    end.
Proof.
  intros Hx. revert k. induction values as [|v values IH]; intros k; [reflexivity|].
  cbn [map]. rewrite imap_cons. cbn [select_at list_find].
  assert (Hc : default false (zip_with cell_eqb needle v !! i)
               = cell_eqb x (default CNull (v !! i))).
  { rewrite lookup_zip_with, Hx. simpl. destruct (v !! i) as [y|]; simpl; [reflexivity|].
    destruct x; reflexivity. }
  rewrite Hc.
  destruct (decide (cell_eqb x (default CNull (v !! i)) = true)) as [Ht|Hf].
  - rewrite Ht. simpl. rewrite Nat.add_0_r. reflexivity.
  - apply not_true_is_false in Hf. rewrite Hf.
    rewrite (imap_ext _ (fun j _ => Scalar (CInt (Z.of_nat (S k + j))))).
    2:{ intros j y _. simpl. repeat f_equal. lia. }
    rewrite IH.
    change (list_find _ values)
      with (list_find (fun v : list cell => cell_eqb x (default CNull (v !! i)) = true) values).
    destruct (list_find _ values) as [[j w]|]; simpl; [|reflexivity].
    repeat f_equal. lia.
Qed.

(** X14.  On a partition, [FindInSet] gives in each row the position,
    counted from 0, of the first value that equals the needle of that row,
    and -1 when no value does (a null equals nothing). *)
Theorem find_in_set_gives_the_first_match (needle : list cell) (values : list (list cell)) :
  values <> [] ->
  Forall (fun v : list cell => length v = length needle) values ->
  exists out,
    FindInSet_partition needle values = Ok out
    /\ length out = length needle
    /\ forall i x, needle !! i = Some x ->
         out !! i
         = Some match list_find
                        (fun v : list cell => cell_eqb x (default CNull (v !! i)) = true)
                        values with
                | Some (j, _) => CInt (Z.of_nat j)
                | None => CInt (-1)
                end.
Proof.
  intros Hne Hlen. unfold FindInSet_partition.
  rewrite (series_eq_columns needle values Hlen). cbn [mbind result_bind].
  unfold FindInSet_mapper.
  rewrite (np_select_columns (length needle)).
  - cbn [mbind result_bind]. rewrite pd_Series_selected.
    eexists. split; [reflexivity|]. split; [rewrite length_map, length_seq; reflexivity|].
    intros i x Hx. rewrite selected_lookup by (eapply lookup_lt_Some; exact Hx).
    f_equal. exact (select_at_position i x needle values 0 (Scalar (CInt (-1))) Hx).
  - destruct values; [contradiction|discriminate].
  - rewrite length_imap. reflexivity.
  - rewrite Forall_map. eapply Forall_impl; [exact Hlen|]. intros v Hv. simpl in Hv.
    simpl. rewrite length_zip_with. lia.
  - apply Forall_forall. intros ch Hin. apply list_elem_of_lookup_1 in Hin.
    destruct Hin as [j Hj]. rewrite list_lookup_imap in Hj.
    destruct (_ !! j); simpl in Hj; [|discriminate]. injection Hj as <-. reflexivity.
  - reflexivity.
Qed.

Lemma find_in_set_gives_the_first_match_witness :
  exists out,
    FindInSet_partition [CInt 7; CNull; CInt 3] [[CInt 1; CNull; CInt 3]; [CInt 7; CInt 2; CInt 3]]
    = Ok out
    /\ length out = 3%nat
    /\ forall i x, [CInt 7; CNull; CInt 3] !! i = Some x ->
         out !! i
         = Some match list_find
                        (fun v : list cell => cell_eqb x (default CNull (v !! i)) = true)
                        [[CInt 1; CNull; CInt 3]; [CInt 7; CInt 2; CInt 3]] with
                | Some (j, _) => CInt (Z.of_nat j)
                | None => CInt (-1)
                end.
Proof.
  apply (find_in_set_gives_the_first_match [CInt 7; CNull; CInt 3]
           [[CInt 1; CNull; CInt 3]; [CInt 7; CInt 2; CInt 3]]).
  - discriminate.
  - repeat constructor.
Defined.

Lemma select_at_first_case (i : nat) (condlist : list (list bool)) (choicelist : list choice)
    (default_ : choice) :
  select_at i condlist choicelist default_
  = match list_find (fun cr : list bool * choice => default false (cr.1 !! i) = true)
                    (zip condlist choicelist) with
    | Some (_, (_, r)) => choice_at r i
    | None => choice_at default_ i
    end.
Proof.
  revert choicelist. induction condlist as [|c cs IH]; intros [|ch chs]; try reflexivity.
  cbn [select_at zip zip_with list_find].
  destruct (decide (default false ((c, ch).1 !! i) = true)) as [Ht|Hf]; simpl in *.
  - rewrite Ht. reflexivity.
  - apply not_true_is_false in Hf. rewrite Hf. rewrite IH.
    change (zip_with pair cs chs) with (zip cs chs).
    destruct (list_find _ (zip cs chs)) as [[j [c' r]]|]; reflexivity.
Qed.

Lemma select_at_otherwise (i n : nat) (condlist : list (list bool))
    (choicelist : list choice) (default_ d0 : choice) :
  length condlist = length choicelist -> (i < n)%nat ->
  select_at i (condlist ++ [replicate n true]) (choicelist ++ [default_]) d0
  = select_at i condlist choicelist default_.
Proof.
  intros Hlen Hi. revert choicelist Hlen.
  induction condlist as [|c cs IH]; intros [|ch chs] Hlen; try discriminate.
  - simpl. rewrite lookup_replicate_2 by exact Hi. reflexivity.
  - simpl. rewrite IH by (simpl in Hlen; lia). reflexivity.
Qed.

(** X15.  On a partition of [n] rows, a case expression gives in each row
    the result of the first case that holds there, and the default when
    none holds; the 0 that [np.select] would fill in never shows. *)
Theorem case_gives_the_first_true_case (n : nat) (cases : list (list bool))
    (results : list choice) (default_ : choice) :
  length cases = length results ->
  Forall (fun c : list bool => length c = n) cases ->
  Forall (fun r => fits n r = true) results -> fits n default_ = true ->
  exists out,
    Case_mapper n cases results default_ = Ok out
    /\ length out = n
    /\ forall i, (i < n)%nat ->
         out !! i
         = Some match list_find
                        (fun cr : list bool * choice => default false (cr.1 !! i) = true)
                        (zip cases results) with
                | Some (_, (_, r)) => choice_at r i
                | None => choice_at default_ i
                end.
Proof.
  intros Hlen Hc Hr Hd. unfold Case_mapper.
  rewrite (np_select_columns n).
  - cbn [mbind result_bind]. rewrite pd_Series_selected.
    eexists. split; [reflexivity|]. split; [rewrite length_map, length_seq; reflexivity|].
    intros i Hi. rewrite selected_lookup by exact Hi. f_equal.
    rewrite select_at_otherwise by assumption. apply select_at_first_case.
  - destruct cases; discriminate.
  - rewrite !length_app, Hlen. reflexivity.
  - apply Forall_app. split; [exact Hc|]. constructor; [apply length_replicate|constructor].
  - apply Forall_app. split; [exact Hr|]. constructor; [exact Hd|constructor].
  - reflexivity.
Qed.

Lemma case_gives_the_first_true_case_witness :
  exists out,
    Case_mapper 3 [[true; false; false]; [true; true; false]]
      [Scalar (CInt 10); Column [CInt 1; CInt 2; CInt 3]] (Scalar CNull)
    = Ok out
    /\ length out = 3%nat
    /\ forall i, (i < 3)%nat ->
         out !! i
         = Some match list_find
                        (fun cr : list bool * choice => default false (cr.1 !! i) = true)
                        (zip [[true; false; false]; [true; true; false]]
                             [Scalar (CInt 10); Column [CInt 1; CInt 2; CInt 3]]) with
                | Some (_, (_, r)) => choice_at r i
                | None => choice_at (Scalar CNull) i
                end.
Proof.
  apply (case_gives_the_first_true_case 3 [[true; false; false]; [true; true; false]]
           [Scalar (CInt 10); Column [CInt 1; CInt 2; CInt 3]] (Scalar CNull)).
  - reflexivity.
  - repeat constructor.
  - repeat constructor.
  - reflexivity.
Defined.
(** ** Membership in a subquery *)

Import Subquery.

(** X16.  For a needle that is a series, the membership test answers, row
    by row, whether the needle occurs in the first column of the
    materialized subquery, whatever partition of the subquery holds it (a
    null needle is found when that column holds a null); a subquery
    without columns raises [IndexError]. *)
Theorem in_subquery_tests_the_first_column
    (labels : list Z) (rel : DaskDataFrame) (s : list (list cell)) :
  (columns (_meta rel) <> [] ->
   exists ans,
     visit_InSubquery labels rel (NeedleSeries s) = Ok (AnswerSeries ans)
     /\ Forall2 (Forall2 (fun c (b : bool) =>
                            b = true <-> exists r, r ∈ rows (compute rel) /\ cell_of 0 r = c))
                s ans)
  /\ (columns (_meta rel) = [] ->
      exists msg, visit_InSubquery labels rel (NeedleSeries s) = Raise (IndexError msg)).
Proof.
  unfold visit_InSubquery, iloc_col. simpl. split.
  - intros Hc. destruct (decide (0 < length (columns (_meta rel)))%nat) as [_|Hn].
    2:{ destruct (columns (_meta rel)); [contradiction|simpl in Hn; lia]. }
    cbn [mbind result_bind]. eexists. split; [reflexivity|].
    apply Forall2_fmap_r. apply Forall_Forall2_diag. apply Forall_forall. intros p _.
    unfold isin. apply Forall2_fmap_r. apply Forall_Forall2_diag. apply Forall_forall.
    intros c _. unfold compose. rewrite bool_decide_eq_true.
    change (map ?f ?l) with (f <$> l). rewrite list_elem_of_fmap.
    split; intros (r & H1 & H2); exists r; unfold cell_of; auto.
  - intros ->. simpl. eexists. reflexivity.
Qed.

Lemma in_subquery_tests_the_first_column_witness :
  let rel := mkDDF (mkDF ["a"; "b"] [])
                   [mkDF ["a"; "b"] [[CInt 1; CInt 9]]; mkDF ["a"; "b"] [[CInt 4; CInt 8]]] in
  exists ans,
    visit_InSubquery [0; 0] rel (NeedleSeries [[CInt 4; CInt 9]; [CInt 1]])
    = Ok (AnswerSeries ans)
    /\ Forall2 (Forall2 (fun c (b : bool) =>
                           b = true <-> exists r, r ∈ rows (compute rel) /\ cell_of 0 r = c))
               [[CInt 4; CInt 9]; [CInt 1]] ans.
Proof.
  intros rel.
  apply (proj1 (in_subquery_tests_the_first_column [0; 0] rel [[CInt 4; CInt 9]; [CInt 1]])).
  discriminate.
Defined.

(** ** Arrays and structs *)

Import Nested.

Lemma mask_of_arrays (p : list array_cell) :
  Forall (fun v => v <> ANull) p ->
  forallb (fun b : option bool => bool_decide (b <> None)) (nonempty_mask p) = true
  /\ explode (keep_masked p (nonempty_mask p)) = elements p.
Proof.
  unfold explode, keep_masked, elements.
  induction 1 as [|v p Hv _ [IH1 IH2]]; [split; reflexivity|].
  destruct v as [l|]; [|contradiction]. cbn [nonempty_mask map forallb zip_with].
  split.
  - rewrite bool_decide_true by discriminate. exact IH1.
  - destruct l as [|c l]; simpl; [exact IH2|].
    unfold nonempty_mask in IH2. rewrite IH2. reflexivity.
Qed.

Lemma mask_with_a_null (p : list array_cell) :
  ANull ∈ p -> is_ok (getitem_option_mask p (nonempty_mask p)) = false.
Proof.
  intros Hin. unfold getitem_option_mask.
  replace (forallb _ (nonempty_mask p)) with false.
  - destruct (forallb _ (nonempty_mask p)); reflexivity.
  - symmetry. apply not_true_is_false. rewrite forallb_forall. intros H.
    specialize (H None). rewrite bool_decide_eq_true in H. apply H; [|reflexivity].
    apply list_elem_of_In. unfold nonempty_mask.
    change (map ?f ?l) with (f <$> l). apply list_elem_of_fmap. exists ANull. auto.
Qed.

Lemma traverse_fails {A B : Type} (f : A -> result B) (l : list A) :
  Exists (fun x => is_ok (f x) = false) l -> is_ok (traverse f l) = false.
Proof.
  induction 1 as [x l Hx|x l _ IH]; simpl.
  - destruct (f x); [discriminate|reflexivity].
  - destruct (f x); [|reflexivity]. simpl. destruct (traverse f l); [discriminate|reflexivity].
Qed.

(** X17.  Over a series whose arrays are all present, [Unnest] returns,
    partition by partition, the elements of the arrays one after the
    other; an array without elements contributes no row.  As soon as an
    array is null, the rule raises instead of passing the null on. *)
Theorem unnest_gives_the_elements (arg : list (list array_cell)) :
  (Forall (Forall (fun v => v <> ANull)) arg -> visit_Unnest arg = Ok (map elements arg))
  /\ (Exists (fun p => ANull ∈ p) arg -> is_ok (visit_Unnest arg) = false).
Proof.
  unfold visit_Unnest. split.
  - intros H. apply traverse_map. eapply Forall_impl; [exact H|]. intros p Hp. simpl in Hp.
    destruct (mask_of_arrays p Hp) as [H1 H2]. unfold getitem_option_mask. rewrite H1.
    cbn [mbind result_bind]. rewrite H2. reflexivity.
  - intros H. apply traverse_fails. eapply Exists_impl; [exact H|]. intros p Hp. simpl in Hp.
    pose proof (mask_with_a_null p Hp) as Hm.
    destruct (getitem_option_mask p (nonempty_mask p)); [discriminate|reflexivity].
Qed.

Lemma unnest_gives_the_elements_witness :
  visit_Unnest [[Arr [CInt 1; CInt 2]; Arr []]; [Arr [CInt 3]]] = Ok [[CInt 1; CInt 2]; [CInt 3]]
  /\ is_ok (visit_Unnest [[Arr [CInt 1]]; [Arr [CInt 2]; ANull]]) = false.
Proof.
  split.
  - apply (proj1 (unnest_gives_the_elements [[Arr [CInt 1; CInt 2]; Arr []]; [Arr [CInt 3]]])).
    repeat constructor; discriminate.
  - apply (proj2 (unnest_gives_the_elements [[Arr [CInt 1]]; [Arr [CInt 2]; ANull]])).
    right. left. right. left.
Defined.

Lemma struct_insert_other (kvs : list (string * cell)) (m : gmap string cell) (name : string) :
  name ∉ map fst kvs ->
  fold_left (fun (m : gmap string cell) (kv : string * cell) => <[fst kv := snd kv]> m) kvs m
    !! name
  = m !! name.
Proof.
  revert m. induction kvs as [|[n c] kvs IH]; intros m Hn; [reflexivity|].
  simpl in *. apply not_elem_of_cons in Hn. destruct Hn as [Hne Hn].
  rewrite IH by exact Hn. apply lookup_insert_ne. congruence.
Qed.

Lemma struct_insert_last (kvs : list (string * cell)) (m : gmap string cell) (i : nat)
    (name : string) (c : cell) :
  kvs !! i = Some (name, c) ->
  (forall j kv, (i < j)%nat -> kvs !! j = Some kv -> fst kv <> name) ->
  fold_left (fun (m : gmap string cell) (kv : string * cell) => <[fst kv := snd kv]> m) kvs m
    !! name
  = Some c.
Proof.
  revert m i. induction kvs as [|kv kvs IH]; intros m i Hi Hlast; [discriminate|].
  destruct i as [|i]; simpl in *.
  - injection Hi as ->. rewrite struct_insert_other.
    + simpl. apply lookup_insert_eq.
    + intros Hin. change (map fst kvs) with (fst <$> kvs) in Hin.
      apply list_elem_of_fmap in Hin. destruct Hin as (kv & Hk & Hin).
      apply list_elem_of_lookup_1 in Hin. destruct Hin as [j Hj].
      apply (Hlast (S j) kv); [lia|exact Hj|congruence].
  - apply (IH _ i Hi). intros j kv' Hj Hkv. apply (Hlast (S j) kv'); [lia|exact Hkv].
Qed.

(** X18.  The struct built from a row maps every field name to the value
    at the position of the name; when a name occurs more than once, the
    value at its last position wins, and a name that is no field is
    absent. *)
Theorem struct_fields_by_position (names : list string) (r : list cell) :
  (forall i name c,
      names !! i = Some name -> r !! i = Some c ->
      (forall j, (i < j < length r)%nat -> names !! j <> Some name) ->
      StructColumn_row names r !! name = Some c)
  /\ (forall name, name ∉ names -> StructColumn_row names r !! name = None).
Proof.
  unfold StructColumn_row. split.
  - intros i name c Hn Hc Hlast. apply (struct_insert_last _ _ i).
    + rewrite lookup_zip_with, Hn. simpl. rewrite Hc. reflexivity.
    + intros j [n' c'] Hij Hj. rewrite lookup_zip_with in Hj.
      destruct (names !! j) as [n''|] eqn:Hnj; simpl in Hj; [|discriminate].
      destruct (r !! j) as [c''|] eqn:Hrj; simpl in Hj; [|discriminate].
      injection Hj as -> ->. simpl. intros ->.
      apply (Hlast j); [|exact Hnj]. apply lookup_lt_Some in Hrj. lia.
  - intros name Hn. rewrite struct_insert_other; [apply lookup_empty|].
    intros Hin. apply Hn. change (map fst ?l) with (fst <$> l) in Hin.
    apply list_elem_of_fmap in Hin. destruct Hin as ([n c] & -> & Hin).
    apply list_elem_of_lookup_1 in Hin. destruct Hin as [j Hj]. rewrite lookup_zip_with in Hj.
    destruct (names !! j) as [n''|] eqn:Hnj; simpl in Hj; [|discriminate].
    destruct (r !! j); simpl in Hj; [|discriminate]. injection Hj as -> _.
    simpl. eapply list_elem_of_lookup_2. exact Hnj.
Qed.

Lemma struct_fields_by_position_witness :
  StructColumn_row ["a"; "b"; "a"] [CInt 1; CInt 2; CInt 3] !! "a" = Some (CInt 3)
  /\ StructColumn_row ["a"; "b"; "a"] [CInt 1; CInt 2; CInt 3] !! "c" = None.
Proof.
  split.
  - apply (proj1 (struct_fields_by_position ["a"; "b"; "a"] [CInt 1; CInt 2; CInt 3])
             2%nat "a" (CInt 3)); [reflexivity|reflexivity|].
    intros j Hj. simpl in Hj. lia.
  - apply (proj2 (struct_fields_by_position ["a"; "b"; "a"] [CInt 1; CInt 2; CInt 3]) "c").
    decide_by_computation.
Defined.
(** ** ArgMin / ArgMax under a predicate *)

Import Reduction.






(** ** Projection of scalars over a parent with rows *)

Import Relational.

(** X20.  Over a parent that has rows, a projection whose values are all
    scalars returns a table with the columns of the one-row frame, as many
    rows as the parent, and the scalar row in each of them. *)
Theorem project_repeats_the_scalar_row (parent df : DaskDataFrame) (r : list cell) :
  rows (compute df) = [r] -> dask_len parent <> 0%nat ->
  exists result,
    visit_Project parent (df, true) = Ok result
    /\ columns (_meta result) = columns (_meta df)
    /\ dask_len result = dask_len parent
    /\ Forall (fun r' => r' = r) (rows (compute result)).
Proof.
  intros Hr Hn.
  destruct (project_scalars_broadcast parent df r Hr Hn) as (result & Hres & Hrows).
  exists result. split; [exact Hres|]. split; [|split].
  - unfold visit_Project in Hres. simpl in Hres.
    destruct (negb _); [|injection Hres as <-; reflexivity].
    unfold dd_concat in Hres.
    destruct (replicate (dask_len parent) df) as [|d ds] eqn:Hrep; [discriminate|].
    assert (Hd : d ∈ replicate (dask_len parent) df) by (rewrite Hrep; left).
    apply elem_of_replicate in Hd. destruct Hd as [-> _].
    destruct ds; injection Hres as <-; reflexivity.
  - unfold dask_len at 1. unfold len. rewrite Hrows. apply length_replicate.
  - rewrite Hrows. apply Forall_replicate. reflexivity.
Qed.

Lemma project_repeats_the_scalar_row_witness :
  let parent :=
    mkDDF (mkDF ["a"] [])
          [mkDF ["a"] [[CInt 10]; [CInt 20]]; mkDF ["a"] [[CInt 30]]] in
  exists result,
    visit_Project parent (scalar_frame ["x"; "y"] [CInt 1; CNull], true) = Ok result
    /\ columns (_meta result) = ["x"; "y"]
    /\ dask_len result = 3%nat
    /\ Forall (fun r' => r' = [CInt 1; CNull]) (rows (compute result)).
Proof.
  intros parent.
  apply (project_repeats_the_scalar_row parent (scalar_frame ["x"; "y"] [CInt 1; CNull])
           [CInt 1; CNull]).
  - reflexivity.
  - discriminate.
Defined.
